(** * A shallow embedding of deno-keyv's SqliteProvider and PostgresProvider

    Both providers keep a [Collection] (a JavaScript [Map]) as a read cache
    in front of a two-column SQL table [(key TEXT, value TEXT)], use lodash's
    [_.get], [_.set] and [_.has] on the cached documents, and serialise with
    [JSON.stringify] / [JSON.parse].

    Modelling choices:
    - JavaScript values are the trees of [jsval]; numbers are integers.
      Values are immutable trees: every in-place mutation the source performs
      ([_.set] on the cached object, [fetched.push] in [push]) is on an object
      that the same operation then stores back into the Collection, or that it
      drops, so a fresh tree per update has the same observable result for the
      operations modelled here.
    - Property names never clash with members of [Object.prototype] and keys
      contain no bracket characters (lodash's [a[0]] path syntax is not
      modelled, only its dot-separated form).
    - Assigning a non-index, non-["length"] property on an array (which in
      JavaScript attaches a property that JSON.stringify drops) is not
      modelled: the array is left as is.
    - The PostgreSQL [async] methods are modelled as sequential state
      transformers, like the synchronous SQLite ones; the SQLite table's
      autoincrement [id] column is not modelled (no method reads it).
    - The table exists in every state ([CREATE TABLE IF NOT EXISTS] is the
      identity on the modelled state). *)

From Stdlib Require Import String Ascii ZArith List Lia.
From stdpp Require Import base gmap strings list.
Import ListNotations.
Open Scope string_scope.
Set Warnings "-register-all".

(** ** JavaScript values *)

Inductive jsval : Type :=
| JUndef
| JNull
| JBool (b : bool)
| JNum (n : Z)
| JStr (s : string)
| JArr (elems : list jsval)
| JObj (fields : list (string * jsval)).

(** JavaScript truthiness: [undefined], [null], [false], [0] and [""] are
    falsy. *)
Definition truthy (v : jsval) : bool :=
  match v with
  | JUndef | JNull => false
  | JBool b => b
  | JNum n => negb (Z.eqb n 0)
  | JStr s => negb (String.eqb s "")
  | JArr _ | JObj _ => true
  end.

Definition is_nullish (v : jsval) : bool :=
  match v with JUndef | JNull => true | _ => false end.

(** lodash [isObject] (functions are not modelled). *)
Definition is_object (v : jsval) : bool :=
  match v with JArr _ | JObj _ => true | _ => false end.

(** [Array.isArray] *)
Definition is_array (v : jsval) : bool :=
  match v with JArr _ => true | _ => false end.

(** ** Strings: [key.split(".")], [array.join(".")], [key.includes(".")] *)

Definition dot : ascii := "."%char.

Fixpoint split_dot_acc (s : string) (acc : string) : list string :=
  match s with
  | EmptyString => [acc]
  | String c r =>
      if Ascii.eqb c dot then acc :: split_dot_acc r ""
      else split_dot_acc r (String.append acc (String c EmptyString))
  end.

(** [s.split(".")]: never empty; [""] splits to [[""]]. *)
Definition split_dot (s : string) : list string := split_dot_acc s "".

Fixpoint join_dot (l : list string) : string :=
  match l with
  | [] => ""
  | [x] => x
  | x :: r => String.append x (String dot (join_dot r))
  end.

Fixpoint includes_dot (s : string) : bool :=
  match s with
  | EmptyString => false
  | String c r => Ascii.eqb c dot || includes_dot r
  end.

(** ** lodash helpers *)

Definition is_digit (c : ascii) : bool :=
  let n := nat_of_ascii c in Nat.leb 48 n && Nat.leb n 57.

Fixpoint digits_value (s : string) (acc : nat) : option nat :=
  match s with
  | EmptyString => Some acc
  | String c r =>
      if is_digit c then digits_value r (acc * 10 + (nat_of_ascii c - 48))
      else None
  end.

(** lodash [isIndex] on a string key: a decimal numeral without leading zeros (the
    [MAX_SAFE_INTEGER] bound is not modelled). *)
Definition is_index (k : string) : option nat :=
  match k with
  | String c EmptyString => if is_digit c then Some (nat_of_ascii c - 48) else None
  | String c r => if Ascii.eqb c "0"%char then None
                  else if is_digit c then digits_value r (nat_of_ascii c - 48)
                  else None
  | EmptyString => None
  end.

Fixpoint assoc_get (f : list (string * jsval)) (k : string) : option jsval :=
  match f with
  | [] => None
  | (k', v) :: r => if String.eqb k k' then Some v else assoc_get r k
  end.

(** Assigning [obj[k] = v]: an existing key keeps its position. *)
Fixpoint assoc_set (f : list (string * jsval)) (k : string) (v : jsval)
  : list (string * jsval) :=
  match f with
  | [] => [(k, v)]
  | (k', v') :: r => if String.eqb k k' then (k', v) :: r else (k', v') :: assoc_set r k v
  end.

(** [arr[i] = v]: beyond the end the array grows, with holes read as
    [undefined]. *)
Fixpoint list_set_extend (l : list jsval) (i : nat) (v : jsval) : list jsval :=
  match l, i with
  | [], O => [v]
  | [], S i' => JUndef :: list_set_extend [] i' v
  | _ :: r, O => v :: r
  | x :: r, S i' => x :: list_set_extend r i' v
  end.

(** Property read [v[k]] on a non-nullish value. *)
Definition prop_get (v : jsval) (k : string) : jsval :=
  match v with
  | JObj f => match assoc_get f k with Some x => x | None => JUndef end
  | JArr l =>
      if String.eqb k "length" then JNum (Z.of_nat (length l)) else
      match is_index k with
      | Some i => match nth_error l i with Some x => x | None => JUndef end
      | None => JUndef
      end
  | JStr s =>
      if String.eqb k "length" then JNum (Z.of_nat (String.length s)) else
      match is_index k with
      | Some i => if Nat.ltb i (String.length s) then JStr (substring i 1 s) else JUndef
      | None => JUndef
      end
  | _ => JUndef
  end.

(** [Object.prototype.hasOwnProperty.call(v, k)] *)
Definition has_own (v : jsval) (k : string) : bool :=
  match v with
  | JObj f => match assoc_get f k with Some _ => true | None => false end
  | JArr l =>
      String.eqb k "length" ||
      match is_index k with Some i => Nat.ltb i (length l) | None => false end
  | JStr s =>
      String.eqb k "length" ||
      match is_index k with Some i => Nat.ltb i (String.length s) | None => false end
  | _ => false
  end.

(** lodash [castPath] of a string path: a key without a dot, or a key the
    object already has, is one segment; otherwise the path is split on
    dots. *)
Definition cast_path (p : string) (obj : jsval) : list string :=
  if negb (includes_dot p) then [p]
  else if has_own obj p then [p]
  else split_dot p.

(** lodash [baseGet]'s walk. *)
Fixpoint get_walk (v : jsval) (path : list string) : jsval :=
  match path with
  | [] => v
  | k :: p => if is_nullish v then JUndef else get_walk (prop_get v k) p
  end.

(** lodash [baseGet]: the empty path yields [undefined]. *)
Definition base_get (v : jsval) (path : list string) : jsval :=
  match path with [] => JUndef | _ => get_walk v path end.

(** [_.get(object, path, defaultValue)] with a string path. *)
Definition lodash_get (obj : jsval) (p : string) (dflt : jsval) : jsval :=
  match base_get obj (cast_path p obj) with
  | JUndef => dflt
  | r => r
  end.

(** lodash [hasPath] with [baseHas]: every segment must be an own
    property. (Its trailing check for sparse arrays is subsumed by
    [has_own], which counts array holes below [length].) *)
Fixpoint has_walk (v : jsval) (path : list string) : bool :=
  match path with
  | [] => true
  | k :: p => negb (is_nullish v) && has_own v k && has_walk (prop_get v k) p
  end.

(** [_.has(object, path)] with a string path. *)
Definition lodash_has (obj : jsval) (p : string) : bool :=
  negb (is_nullish obj) &&
  match cast_path p obj with
  | [] => false
  | path => has_walk obj path
  end.

Definition unsafe_key (k : string) : bool :=
  String.eqb k "__proto__" || String.eqb k "constructor" || String.eqb k "prototype".

(** [assignValue(object, key, value)] on an object or array. A non-index
    key on an array adds a named property, which the model's arrays, like
    [JSON.stringify], do not carry. *)
Definition assign (o : jsval) (k : string) (v : jsval) : jsval :=
  match o with
  | JObj f => JObj (assoc_set f k v)
  | JArr l =>
      match is_index k with
      | Some i => JArr (list_set_extend l i v)
      | None => o
      end
  | _ => o
  end.

(** lodash [baseSet]'s loop: missing or non-object intermediate levels are
    replaced by [[]] when the next segment is an index and by [{}]
    otherwise; an unsafe segment stops the walk. *)
Fixpoint set_walk (o : jsval) (path : list string) (v : jsval) : jsval :=
  match path with
  | [] => o
  | k :: rest =>
      if unsafe_key k then o else
      match rest with
      | [] => assign o k v
      | k' :: _ =>
          let cur := prop_get o k in
          let nv := if is_object cur then cur
                    else match is_index k' with Some _ => JArr [] | None => JObj [] end in
          assign o k (set_walk nv rest v)
      end
  end.

(** [_.set(object, path, value)] with an array path: a non-object is
    returned unchanged. *)
Definition lodash_set (o : jsval) (path : list string) (v : jsval) : jsval :=
  if is_object o then set_walk o path v else o.

(** ** JSON.stringify *)

Definition quote_char : ascii := ascii_of_nat 34.
Definition bslash : ascii := ascii_of_nat 92.

Fixpoint N_digits (fuel : nat) (n : N) (acc : string) : string :=
  match fuel with
  | O => acc
  | S f =>
      let acc' := String (ascii_of_N (48 + N.modulo n 10)) acc in
      if N.eqb (N.div n 10) 0 then acc' else N_digits f (N.div n 10) acc'
  end.

(** Decimal rendering of an integer, as [String(n)] does. *)
Definition Z_to_dec (z : Z) : string :=
  if Z.ltb z 0 then String "-" (N_digits (S (N.size_nat (Z.to_N (- z)))) (Z.to_N (- z)) "")
  else N_digits (S (N.size_nat (Z.to_N z))) (Z.to_N z) "".

Definition hex_digit (n : nat) : ascii :=
  if Nat.ltb n 10 then ascii_of_nat (48 + n) else ascii_of_nat (87 + n).

(** JSON.stringify's string escapes: the quote, the backslash, and control
    characters (named escapes where JSON has one, [\u00XX] otherwise). *)
Definition escape_char (c : ascii) : string :=
  let n := nat_of_ascii c in
  if Nat.eqb n 34 then String bslash (String quote_char EmptyString)
  else if Nat.eqb n 92 then String bslash (String bslash EmptyString)
  else if Nat.eqb n 8 then String bslash "b"
  else if Nat.eqb n 12 then String bslash "f"
  else if Nat.eqb n 10 then String bslash "n"
  else if Nat.eqb n 13 then String bslash "r"
  else if Nat.eqb n 9 then String bslash "t"
  else if Nat.ltb n 32 then
    String bslash (String "u" (String "0" (String "0"
      (String (hex_digit (n / 16)) (String (hex_digit (n mod 16)) EmptyString)))))
  else String c EmptyString.

Fixpoint escape (s : string) : string :=
  match s with
  | EmptyString => EmptyString
  | String c r => String.append (escape_char c) (escape r)
  end.

Definition quote (s : string) : string :=
  String quote_char (String.append (escape s) (String quote_char EmptyString)).

(** [JSON.stringify(v)]: [None] is JavaScript's [undefined] result (for
    [undefined] itself); [undefined] array elements print as [null] and
    [undefined] object members are skipped. *)
Fixpoint stringify (v : jsval) : option string :=
  match v with
  | JUndef => None
  | JNull => Some "null"
  | JBool true => Some "true"
  | JBool false => Some "false"
  | JNum n => Some (Z_to_dec n)
  | JStr s => Some (quote s)
  | JArr l =>
      Some (String.append "["
        (String.append
           (String.concat ","
              (map (fun x => match stringify x with Some s => s | None => "null" end) l))
           "]"))
  | JObj f =>
      Some (String.append "{"
        (String.append
           (String.concat ","
              (flat_map (fun kx =>
                 match stringify (snd kx) with
                 | Some s => [String.append (quote (fst kx)) (String.append ":" s)]
                 | None => []
                 end) f))
           "}"))
  end.

(** ** JSON.parse *)

Definition is_ws (c : ascii) : bool :=
  let n := nat_of_ascii c in Nat.eqb n 32 || Nat.eqb n 9 || Nat.eqb n 10 || Nat.eqb n 13.

Fixpoint skip_ws (s : list ascii) : list ascii :=
  match s with
  | c :: r => if is_ws c then skip_ws r else s
  | [] => []
  end.

Definition hex_value (c : ascii) : option nat :=
  let n := nat_of_ascii c in
  if Nat.leb 48 n && Nat.leb n 57 then Some (n - 48)
  else if Nat.leb 97 n && Nat.leb n 102 then Some (n - 87)
  else if Nat.leb 65 n && Nat.leb n 70 then Some (n - 55)
  else None.

(** A [\uXXXX] escape; code units above 255 are outside the model's 8-bit
    characters. *)
Definition unicode_escape (h1 h2 h3 h4 : ascii) : option ascii :=
  match hex_value h1, hex_value h2, hex_value h3, hex_value h4 with
  | Some a, Some b, Some c, Some d =>
      let n := ((a * 16 + b) * 16 + c) * 16 + d in
      if Nat.ltb n 256 then Some (ascii_of_nat n) else None
  | _, _, _, _ => None
  end.

Definition simple_escape (e : ascii) : option ascii :=
  let n := nat_of_ascii e in
  if Nat.eqb n 34 then Some quote_char
  else if Nat.eqb n 92 then Some bslash
  else if Nat.eqb n 47 then Some "/"%char
  else if Nat.eqb n 98 then Some (ascii_of_nat 8)
  else if Nat.eqb n 102 then Some (ascii_of_nat 12)
  else if Nat.eqb n 110 then Some (ascii_of_nat 10)
  else if Nat.eqb n 114 then Some (ascii_of_nat 13)
  else if Nat.eqb n 116 then Some (ascii_of_nat 9)
  else None.

(** The body of a JSON string literal, after its opening quote. *)
Fixpoint parse_str (s : list ascii) : option (string * list ascii) :=
  match s with
  | [] => None
  | c :: r =>
      if Ascii.eqb c quote_char then Some (EmptyString, r)
      else if Ascii.eqb c bslash then
        match r with
        | e :: r' =>
            if Ascii.eqb e "u"%char then
              match r' with
              | h1 :: h2 :: h3 :: h4 :: r'' =>
                  match unicode_escape h1 h2 h3 h4, parse_str r'' with
                  | Some d, Some (t, rest) => Some (String d t, rest)
                  | _, _ => None
                  end
              | _ => None
              end
            else
              match simple_escape e, parse_str r' with
              | Some d, Some (t, rest) => Some (String d t, rest)
              | _, _ => None
              end
        | [] => None
        end
      else if Nat.ltb (nat_of_ascii c) 32 then None
      else match parse_str r with
           | Some (t, rest) => Some (String c t, rest)
           | None => None
           end
  end.

Fixpoint take_digits (s : list ascii) (acc : Z) : Z * list ascii :=
  match s with
  | c :: r =>
      if is_digit c then take_digits r (acc * 10 + Z.of_nat (nat_of_ascii c - 48))%Z
      else (acc, s)
  | [] => (acc, [])
  end.

(** A JSON number; a fraction or an exponent is outside the model's integer
    numbers and rejected. *)
Definition parse_number (s : list ascii) : option (jsval * list ascii) :=
  let '(neg, s1) := match s with
                    | c :: r => if Ascii.eqb c "-"%char then (true, r) else (false, s)
                    | [] => (false, s)
                    end in
  let digits :=
    match s1 with
    | c :: r =>
        if Ascii.eqb c "0"%char then Some (0%Z, r)
        else if is_digit c then Some (take_digits r (Z.of_nat (nat_of_ascii c - 48)))
        else None
    | [] => None
    end in
  match digits with
  | Some (n, rest) =>
      match rest with
      | c :: _ =>
          if Ascii.eqb c "."%char || Ascii.eqb c "e"%char || Ascii.eqb c "E"%char then None
          else Some (JNum (if neg then - n else n)%Z, rest)
      | [] => Some (JNum (if neg then - n else n)%Z, rest)
      end
  | None => None
  end.

Definition expect (lit : list ascii) (v : jsval) (s : list ascii) : option (jsval * list ascii) :=
  if decide (firstn (length lit) s = lit)
  then Some (v, skipn (length lit) s) else None.

(** Recursive descent over the characters; every call consumes at least
    one character, so the input length bounds the fuel needed. *)
Fixpoint parse_value (fuel : nat) (s : list ascii) : option (jsval * list ascii) :=
  match fuel with
  | O => None
  | S f =>
      match skip_ws s with
      | [] => None
      | c :: r =>
          if Ascii.eqb c "n"%char then expect (list_ascii_of_string "ull") JNull r
          else if Ascii.eqb c "t"%char then expect (list_ascii_of_string "rue") (JBool true) r
          else if Ascii.eqb c "f"%char then expect (list_ascii_of_string "alse") (JBool false) r
          else if Ascii.eqb c quote_char then
            match parse_str r with Some (t, r') => Some (JStr t, r') | None => None end
          else if Ascii.eqb c "["%char then
            match skip_ws r with
            | c' :: r' =>
                if Ascii.eqb c' "]"%char then Some (JArr [], r')
                else match parse_value f r with
                     | Some (v, r'') => parse_elems f r'' [v]
                     | None => None
                     end
            | [] => None
            end
          else if Ascii.eqb c "{"%char then
            match skip_ws r with
            | c' :: r' =>
                if Ascii.eqb c' "}"%char then Some (JObj [], r')
                else parse_members f r []
            | [] => None
            end
          else if Ascii.eqb c "-"%char || is_digit c then parse_number (c :: r)
          else None
      end
  end
(** After an array element: [,] and another element, or [\]]. *)
with parse_elems (fuel : nat) (s : list ascii) (acc : list jsval)
  : option (jsval * list ascii) :=
  match fuel with
  | O => None
  | S f =>
      match skip_ws s with
      | c :: r =>
          if Ascii.eqb c ","%char then
            match parse_value f r with
            | Some (v, r') => parse_elems f r' (acc ++ [v])
            | None => None
            end
          else if Ascii.eqb c "]"%char then Some (JArr acc, r)
          else None
      | [] => None
      end
  end
(** An object member ["key":value], then [,] and another member or [}];
    a repeated key keeps its first position and its last value. *)
with parse_members (fuel : nat) (s : list ascii) (acc : list (string * jsval))
  : option (jsval * list ascii) :=
  match fuel with
  | O => None
  | S f =>
      match skip_ws s with
      | c :: r =>
          if Ascii.eqb c quote_char then
            match parse_str r with
            | Some (k, r1) =>
                match skip_ws r1 with
                | c1 :: r2 =>
                    if Ascii.eqb c1 ":"%char then
                      match parse_value f r2 with
                      | Some (v, r3) =>
                          let acc' := assoc_set acc k v in
                          match skip_ws r3 with
                          | c3 :: r4 =>
                              if Ascii.eqb c3 ","%char then parse_members f r4 acc'
                              else if Ascii.eqb c3 "}"%char then Some (JObj acc', r4)
                              else None
                          | [] => None
                          end
                      | None => None
                      end
                    else None
                | [] => None
                end
            | None => None
            end
          else None
      | [] => None
      end
  end.

(** [JSON.parse(s)]: [None] is a thrown [SyntaxError]. *)
Definition json_parse (s : string) : option jsval :=
  let l := list_ascii_of_string s in
  match parse_value (S (length l)) l with
  | Some (v, rest) => match skip_ws rest with [] => Some v | _ => None end
  | None => None
  end.

(** ** The Backend Store and the Collection *)

(** A table row; [None] is SQL [NULL] (what binding [undefined] stores). *)
Record row : Type := mkRow { row_key : string; row_value : option string }.

(** The provider's state: its [Collection] and the rows of its table, in
    [SELECT] order. *)
Record state : Type := mkState {
  collection : gmap string jsval;
  rows : list row
}.

(** [SELECT * FROM t WHERE key = ?] *)
Definition select_by_key (t : list row) (k : string) : list row :=
  List.filter (fun r => String.eqb (row_key r) k) t.

(** [INSERT INTO t (key, value) VALUES (?, ?)] *)
Definition insert_row (t : list row) (k : string) (v : option string) : list row :=
  t ++ [mkRow k v].

(** [UPDATE t SET value = ? WHERE key = ?] *)
Definition update_rows (t : list row) (v : option string) (k : string) : list row :=
  map (fun r => if String.eqb (row_key r) k then mkRow (row_key r) v else r) t.

(** [DELETE FROM t WHERE key = ?] *)
Definition delete_rows (t : list row) (k : string) : list row :=
  List.filter (fun r => negb (String.eqb (row_key r) k)) t.

(** [collection.get(k)]: [undefined] when absent. *)
Definition coll_get (c : gmap string jsval) (k : string) : jsval :=
  match c !! k with Some v => v | None => JUndef end.

(** [collection.has(k)] *)
Definition coll_has (c : gmap string jsval) (k : string) : bool :=
  match c !! k with Some _ => true | None => false end.

(** The value of a row as the driver returns it: a string, or [null]. *)
Definition row_value_js (r : row) : jsval :=
  match row_value r with Some s => JStr s | None => JNull end.

(** [rows.forEach(row => collection.set(row.key, row.value))] *)
Definition load_rows (c : gmap string jsval) (t : list row) : gmap string jsval :=
  fold_left (fun c r => <[row_key r := row_value_js r]> c) t c.

(** [const data = new Map(); for (o of fetched) data.set(o.key, JSON.parse(o.value))]:
    [None] when a [JSON.parse] throws ([JSON.parse(null)] parses ["null"]). *)
Definition parse_rows (t : list row) : option (gmap string jsval) :=
  fold_left (fun acc r =>
    match acc with
    | None => None
    | Some m =>
        match json_parse (match row_value r with Some s => s | None => "null" end) with
        | Some v => Some (<[row_key r := v]> m)
        | None => None
        end
    end) t (Some ∅).

(** [const unparsed = key.split("."); const root = unparsed.shift()]
    ([split] never returns an empty array). *)
Definition shift_split (key : string) : string * list string :=
  match split_dot key with
  | r :: p => (r, p)
  | [] => ("undefined", [])
  end.

(** [this.collection.get(key) || {}] *)
Definition cached_or_empty (c : gmap string jsval) (root : string) : jsval :=
  let d := coll_get c root in if truthy d then d else JObj [].

(** ** SqliteProvider (src/src/SqliteProvider.ts) *)

Module SqliteProvider.

(** [init()]: every row is put into the Collection with its raw [value]. *)
Definition init (st : state) : state :=
  mkState (load_rows (collection st) (rows st)) (rows st).

(** [delete(key)] *)
Definition delete (key : string) (st : state) : state :=
  mkState (base.delete key (collection st)) (delete_rows (rows st) key).

(** [set(key, value)]: returns the first row read back for the root key
    ([None] is [undefined]) and the new state. *)
Definition set (key : string) (value : jsval) (st : state) : option row * state :=
  let '(root, unparsed) := shift_split key in
  let cachedData := cached_or_empty (collection st) root in
  let lodashedData0 :=
    lodash_set cachedData
      (if Nat.ltb 1 (length unparsed) then unparsed else cast_path root cachedData)
      value in
  let '(coll', lodashedData) :=
    if Nat.ltb 1 (length unparsed)
    then (<[root := lodashedData0]> (collection st), lodashedData0)
    else (<[root := value]> (collection st), value) in
  let fetchQuery := select_by_key (rows st) root in
  let t1 :=
    if Nat.ltb (length fetchQuery) 0
    then insert_row (rows st) root (stringify lodashedData)
    else rows st in
  let t2 := update_rows t1 (stringify lodashedData) root in
  (head (select_by_key t2 root), mkState coll' t2).

(** [get(key, defaultValue = "")]: a JavaScript default parameter replaces
    only [undefined]. *)
Definition get (key : string) (defaultValue : jsval) (st : state) : jsval * state :=
  let dflt := match defaultValue with JUndef => JStr "" | d => d end in
  if includes_dot key then
    let '(root, rest) := shift_split key in
    let coll := coll_get (collection st) root in
    let exists_ := coll_has (collection st) root in
    let prop := join_dot rest in
    let st' := if exists_ then st else snd (set key dflt st) in
    (lodash_get coll prop JNull, st')
  else
    let exists_ := coll_has (collection st) key in
    let st' := if exists_ then st else snd (set key dflt st) in
    (coll_get (collection st') key, st').

(** [fetch(key, defaultValue = "")]: calls [get] and returns [undefined]. *)
Definition fetch (key : string) (defaultValue : jsval) (st : state) : jsval * state :=
  let '(_, st') := get key defaultValue st in (JUndef, st').

(** The loop of [push]: [fetched] changes only through [fetched.push(v)]. *)
Fixpoint push_loop (key : string) (fetched : jsval) (values : list jsval) (st : state)
  : state :=
  match values with
  | [] => st
  | v :: vs =>
      if negb (truthy fetched) then
        push_loop key fetched vs (snd (set key (JArr [v]) st))
      else if negb (is_array fetched) then
        push_loop key fetched vs (snd (set key (JArr [fetched; v]) st))
      else
        let fetched' := match fetched with JArr l => JArr (l ++ [v]) | _ => fetched end in
        push_loop key fetched' vs (snd (set key fetched' st))
  end.

(** [push(key, ...value)] *)
Definition push (key : string) (values : list jsval) (st : state) : jsval * state :=
  let '(fetched, st1) := get key JUndef st in
  get key JUndef (push_loop key fetched values st1).

(** [all()]: [None] when a [JSON.parse] throws. *)
Definition all (st : state) : option (gmap string jsval) * state :=
  (parse_rows (rows st), st).

(** [has(key)] *)
Definition has (key : string) (st : state) : bool * state :=
  if includes_dot key then
    let '(root, rest) := shift_split key in
    let '(coll, st') := get root JUndef st in
    (lodash_has coll (join_dot rest), st')
  else (coll_has (collection st) key, st).

End SqliteProvider.

(** ** PostgresProvider (src/src/PostgresProvider.ts) *)

Module PostgresProvider.

(** [init()]: [CREATE TABLE IF NOT EXISTS], then every row is put into the
    Collection with its raw [value]. *)
Definition init (st : state) : state :=
  mkState (load_rows (collection st) (rows st)) (rows st).

(** [delete(key)] *)
Definition delete (key : string) (st : state) : state :=
  mkState (base.delete key (collection st)) (delete_rows (rows st) key).

(** [set(key, value)]: [unparsed] is [undefined] ([None]) for a key without
    a dot. *)
Definition set (key : string) (value : jsval) (st : state) : option row * state :=
  let '(root, unparsed) :=
    if includes_dot key then let '(r, p) := shift_split key in (r, Some p)
    else (key, None) in
  let cachedData := cached_or_empty (collection st) root in
  let lodashedData0 :=
    lodash_set cachedData
      (match unparsed with Some p => p | None => cast_path root cachedData end)
      value in
  let '(coll', lodashedData) :=
    match unparsed with
    | Some _ => (<[root := lodashedData0]> (collection st), lodashedData0)
    | None => (<[root := value]> (collection st), value)
    end in
  let fetchQuery := select_by_key (rows st) root in
  let t1 :=
    if Nat.leb (length fetchQuery) 0
    then insert_row (rows st) root (stringify lodashedData)
    else rows st in
  let t2 := update_rows t1 (stringify lodashedData) root in
  (head (select_by_key t2 root), mkState coll' t2).

(** [get(key, defaultValue?)]: a miss stores [defaultValue || ""]. *)
Definition get (key : string) (defaultValue : jsval) (st : state) : jsval * state :=
  let dflt := if truthy defaultValue then defaultValue else JStr "" in
  if includes_dot key then
    let '(root, rest) := shift_split key in
    let coll := coll_get (collection st) root in
    let exists_ := coll_has (collection st) root in
    let prop := join_dot rest in
    let st' := if exists_ then st else snd (set key dflt st) in
    (lodash_get coll prop JNull, st')
  else
    let exists_ := coll_has (collection st) key in
    let st' := if exists_ then st else snd (set key dflt st) in
    (coll_get (collection st') key, st').

(** [fetch(key, defaultValue?)]: calls [get] and returns [undefined]. *)
Definition fetch (key : string) (defaultValue : jsval) (st : state) : jsval * state :=
  if truthy defaultValue then
    let '(_, st') := get key defaultValue st in (JUndef, st')
  else
    let '(_, st') := get key JUndef st in (JUndef, st').

Fixpoint push_loop (key : string) (fetched : jsval) (values : list jsval) (st : state)
  : state :=
  match values with
  | [] => st
  | v :: vs =>
      if negb (truthy fetched) then
        push_loop key fetched vs (snd (set key (JArr [v]) st))
      else if negb (is_array fetched) then
        push_loop key fetched vs (snd (set key (JArr [fetched; v]) st))
      else
        let fetched' := match fetched with JArr l => JArr (l ++ [v]) | _ => fetched end in
        push_loop key fetched' vs (snd (set key fetched' st))
  end.

(** [push(key, ...value)] (its [console.log] calls are not modelled). *)
Definition push (key : string) (values : list jsval) (st : state) : jsval * state :=
  let '(fetched, st1) := get key JUndef st in
  get key JUndef (push_loop key fetched values st1).

(** [all()] *)
Definition all (st : state) : option (gmap string jsval) * state :=
  (parse_rows (rows st), st).

(** [has(key)] *)
Definition has (key : string) (st : state) : bool * state :=
  if includes_dot key then
    let '(root, rest) := shift_split key in
    let '(coll, st') := get root JUndef st in
    (lodash_has coll (join_dot rest), st')
  else (coll_has (collection st) key, st).

End PostgresProvider.

(** ** Conditions used in the statements below *)

Fixpoint has_bracket (s : string) : bool :=
  match s with
  | EmptyString => false
  | String c r => Ascii.eqb c "["%char || Ascii.eqb c "]"%char || has_bracket r
  end.

(** A path segment lodash reads as one plain key. *)
Definition plain_segment (s : string) : bool :=
  negb (includes_dot s) && negb (has_bracket s) && negb (unsafe_key s).

(** The names a plain object inherits from [Object.prototype]. A read
    [obj[k]] of such a name on an object without that own property finds
    the inherited member, which the model's [prop_get] does not represent. *)
Definition object_proto_member (s : string) : bool :=
  existsb (String.eqb s)
    ["constructor"; "hasOwnProperty"; "isPrototypeOf"; "propertyIsEnumerable";
     "toLocaleString"; "toString"; "valueOf"; "__proto__";
     "__defineGetter__"; "__defineSetter__"; "__lookupGetter__"; "__lookupSetter__"].

(** A cached root document that is absent, [null] or a plain object: a
    property read on it finds nothing inherited from a number, string or
    boolean prototype. *)
Definition plain_root (d : jsval) : bool :=
  match d with JUndef | JNull | JObj _ => true | _ => false end.

(** A cached root document that [_.set] can extend: a falsy value (replaced
    by [{}] in [set]) or a plain object. *)
Definition extendable_doc (d : jsval) : bool :=
  match d with JObj _ => true | _ => negb (truthy d) end.

(** The user-facing key ["root.seg"]. *)
Definition nested_key (root seg : string) : string := String.append root (String dot seg).

(** The state with an empty Collection and an empty table. *)
Definition empty_state : state := mkState ∅ [].

(** No key occurs twice. *)
Fixpoint keys_distinct (ks : list string) : bool :=
  match ks with
  | [] => true
  | k :: r => negb (existsb (String.eqb k) r) && keys_distinct r
  end.

(** A JSON document: no [undefined] anywhere, and objects without repeated
    keys (the values [JSON.stringify] and [JSON.parse] agree on). *)
Fixpoint json_doc (v : jsval) : bool :=
  match v with
  | JUndef => false
  | JArr l => forallb json_doc l
  | JObj f => keys_distinct (map fst f) && forallb (fun kv => json_doc (snd kv)) f
  | _ => true
  end.

(** What may follow a value inside a JSON text: nothing, [,], [\]] or [}]. *)
Definition delim (rest : list ascii) : bool :=
  match rest with
  | [] => true
  | c :: _ => Ascii.eqb c ","%char || Ascii.eqb c "]"%char || Ascii.eqb c "}"%char
  end.

(** The text [JSON.stringify] gives a value, an array element and an object
    member. *)
Definition elem_text (x : jsval) : string :=
  match stringify x with Some s => s | None => "null" end.

Definition member_text (kx : string * jsval) : string :=
  String.append (quote (fst kx)) (String.append ":" (elem_text (snd kx))).

(** A character that can begin a JSON value: [{], [\[], a quote, [-], a
    digit, or the first letter of [true], [false] or [null]. *)
Definition json_start (c : ascii) : bool :=
  Ascii.eqb c "n"%char || Ascii.eqb c "t"%char || Ascii.eqb c "f"%char ||
  Ascii.eqb c quote_char || Ascii.eqb c "["%char || Ascii.eqb c "{"%char ||
  Ascii.eqb c "-"%char || is_digit c.

(** A text that no JSON value can begin: empty or blank, or whose first
    character after white space cannot start a value. *)
Definition not_json_text (s : string) : bool :=
  match skip_ws (list_ascii_of_string s) with
  | [] => true
  | c :: _ => negb (json_start c)
  end.

(** ** Lemmas on the string and lodash helpers *)

Lemma append_String (c : ascii) (s1 s2 : string) :
  String.append (String c s1) s2 = String c (String.append s1 s2).
Proof. reflexivity. Qed.

Lemma append_empty_l (s : string) : String.append "" s = s.
Proof. reflexivity. Qed.

Lemma append_empty_r (s : string) : String.append s "" = s.
Proof. induction s as [|c s IH]; [reflexivity | now rewrite append_String, IH]. Qed.

Lemma append_assoc (s1 s2 s3 : string) :
  String.append (String.append s1 s2) s3 = String.append s1 (String.append s2 s3).
Proof.
  induction s1 as [|c s1 IH]; [reflexivity | now rewrite !append_String, IH].
Qed.

Lemma split_dot_acc_nodot (s acc : string) :
  includes_dot s = false -> split_dot_acc s acc = [String.append acc s].
Proof.
  revert acc; induction s as [|c s IH]; intros acc H; simpl in *.
  - now rewrite append_empty_r.
  - apply orb_false_iff in H as [Hc Hs]. rewrite Hc, IH by exact Hs.
    now rewrite append_assoc.
Qed.

Lemma split_dot_acc_app (a b acc : string) :
  includes_dot a = false ->
  split_dot_acc (String.append a (String dot b)) acc
  = String.append acc a :: split_dot_acc b "".
Proof.
  revert acc; induction a as [|c a IH]; intros acc H.
  - rewrite append_empty_l. simpl. now rewrite append_empty_r.
  - rewrite append_String. simpl in *.
    apply orb_false_iff in H as [Hc Ha]. rewrite Hc, IH by exact Ha.
    now rewrite append_assoc.
Qed.

Lemma shift_split_nested (a b : string) :
  includes_dot a = false -> includes_dot b = false ->
  shift_split (String.append a (String dot b)) = (a, [b]).
Proof.
  intros Ha Hb. unfold shift_split, split_dot.
  rewrite split_dot_acc_app by exact Ha. rewrite split_dot_acc_nodot by exact Hb.
  reflexivity.
Qed.

Lemma includes_dot_nested (a b : string) :
  includes_dot (String.append a (String dot b)) = true.
Proof.
  induction a as [|c a IH].
  - rewrite append_empty_l. reflexivity.
  - rewrite append_String. simpl. rewrite IH. apply orb_true_r.
Qed.

Lemma split_dot_acc_head_nodot (s acc r : string) (p : list string) :
  includes_dot acc = false -> split_dot_acc s acc = r :: p -> includes_dot r = false.
Proof.
  revert acc; induction s as [|c s IH]; intros acc Hacc Hs; simpl in Hs.
  - now injection Hs as <- _.
  - destruct (Ascii.eqb c dot) eqn:Hc.
    + now injection Hs as <- _.
    + refine (IH _ _ Hs).
      clear -Hacc Hc. induction acc as [|c' acc IHa].
      * simpl. now rewrite Hc.
      * rewrite append_String. simpl in *.
        apply orb_false_iff in Hacc as [H1 H2]. now rewrite H1, IHa.
Qed.

Lemma shift_split_root_nodot (key : string) :
  includes_dot (fst (shift_split key)) = false.
Proof.
  unfold shift_split. destruct (split_dot key) as [|r p] eqn:E; [reflexivity|].
  exact (split_dot_acc_head_nodot key "" r p eq_refl E).
Qed.

Lemma assoc_get_set_eq (f : list (string * jsval)) (k : string) (v : jsval) :
  assoc_get (assoc_set f k v) k = Some v.
Proof.
  induction f as [|[k' v'] f IH]; simpl.
  - now rewrite String.eqb_refl.
  - destruct (String.eqb k k') eqn:E; simpl.
    + now rewrite E.
    + now rewrite E.
Qed.

Lemma cached_or_empty_obj (c : gmap string jsval) (a : string) :
  extendable_doc (coll_get c a) = true -> exists f, cached_or_empty c a = JObj f.
Proof.
  unfold cached_or_empty. intros H.
  destruct (coll_get c a) eqn:E; simpl in *; try discriminate; eauto.
  - destruct b; simpl in *; try discriminate; eauto.
  - destruct (Z.eqb n 0); simpl in *; try discriminate; eauto.
  - destruct (String.eqb s ""); simpl in *; try discriminate; eauto.
Qed.

Lemma lodash_set_one (f : list (string * jsval)) (b : string) (v : jsval) :
  unsafe_key b = false -> lodash_set (JObj f) [b] v = JObj (assoc_set f b v).
Proof. intros H. unfold lodash_set. simpl. now rewrite H. Qed.

Lemma lodash_get_one (f : list (string * jsval)) (b : string) (v : jsval) :
  includes_dot b = false -> v <> JUndef ->
  lodash_get (JObj (assoc_set f b v)) b JNull = v.
Proof.
  intros Hb Hv. unfold lodash_get, cast_path. rewrite Hb. simpl.
  rewrite assoc_get_set_eq. destruct v; congruence.
Qed.

Lemma coll_get_insert (c : gmap string jsval) (a : string) (v : jsval) :
  coll_get (<[a := v]> c) a = v.
Proof. unfold coll_get. now rewrite lookup_insert_eq. Qed.

Lemma coll_has_insert (c : gmap string jsval) (a : string) (v : jsval) :
  coll_has (<[a := v]> c) a = true.
Proof. unfold coll_has. now rewrite lookup_insert_eq. Qed.

Lemma coll_get_absent (c : gmap string jsval) (a : string) :
  coll_has c a = false -> coll_get c a = JUndef.
Proof. unfold coll_has, coll_get. now destruct (c !! a). Qed.

(** ** PostgresProvider on a one-level nested key *)

Section PostgresNested.

Variables (a b : string).
Hypothesis Ha : includes_dot a = false.
Hypothesis Hb : includes_dot b = false.
Hypothesis Hsafe : unsafe_key b = false.

Lemma pg_set_nested (st : state) (v : jsval) :
  extendable_doc (coll_get (collection st) a) = true ->
  exists f, collection (snd (PostgresProvider.set (nested_key a b) v st))
            = <[a := JObj (assoc_set f b v)]> (collection st).
Proof.
  intros Hd. destruct (cached_or_empty_obj _ _ Hd) as [f Hf].
  exists f. unfold PostgresProvider.set, nested_key.
  rewrite includes_dot_nested, shift_split_nested by assumption.
  rewrite Hf, lodash_set_one by assumption. reflexivity.
Qed.

Lemma pg_get_nested_eq (st : state) (d : jsval) :
  PostgresProvider.get (nested_key a b) d st
  = (lodash_get (coll_get (collection st) a) b JNull,
     if coll_has (collection st) a then st
     else snd (PostgresProvider.set (nested_key a b)
                 (if truthy d then d else JStr "") st)).
Proof.
  unfold PostgresProvider.get. unfold nested_key at 1 2.
  rewrite includes_dot_nested, shift_split_nested by assumption.
  reflexivity.
Qed.

Lemma pg_get_nested_hit (st : state) (d : jsval) :
  coll_has (collection st) a = true ->
  PostgresProvider.get (nested_key a b) d st
  = (lodash_get (coll_get (collection st) a) b JNull, st).
Proof. intros H. rewrite pg_get_nested_eq. now rewrite H. Qed.

Lemma pg_get_root_hit (st : state) (d : jsval) :
  coll_has (collection st) a = true ->
  PostgresProvider.get a d st = (coll_get (collection st) a, st).
Proof. intros H. unfold PostgresProvider.get. rewrite Ha. now rewrite H. Qed.

(** After [set(key, v)] the root holds a plain object binding [b] to [v]. *)
Lemma pg_set_nested_state (st : state) (v : jsval) :
  extendable_doc (coll_get (collection st) a) = true ->
  let st' := snd (PostgresProvider.set (nested_key a b) v st) in
  coll_has (collection st') a = true /\
  exists f, coll_get (collection st') a = JObj (assoc_set f b v).
Proof.
  intros Hd. destruct (pg_set_nested st v Hd) as [f Hf]. simpl.
  rewrite Hf. split; [apply coll_has_insert | exists f; apply coll_get_insert].
Qed.

Lemma pg_set_then_get (st : state) (v : jsval) :
  extendable_doc (coll_get (collection st) a) = true -> v <> JUndef ->
  let st' := snd (PostgresProvider.set (nested_key a b) v st) in
  PostgresProvider.get (nested_key a b) JUndef st' = (v, st') /\
  lodash_get (coll_get (collection st') a) b JNull = v /\
  coll_has (collection st') a = true /\
  extendable_doc (coll_get (collection st') a) = true.
Proof.
  intros Hd Hv st'.
  destruct (pg_set_nested_state st v Hd) as [Hh [f Hf]]. fold st' in Hh, Hf.
  rewrite pg_get_nested_hit by exact Hh. rewrite Hf, lodash_get_one by assumption.
  auto.
Qed.

(** [get(key)] returns the value at the path and keeps the root
    extendable, whether it hits or misses. *)
Lemma pg_get_nested_fetch (st : state) :
  extendable_doc (coll_get (collection st) a) = true ->
  fst (PostgresProvider.get (nested_key a b) JUndef st)
  = lodash_get (coll_get (collection st) a) b JNull /\
  extendable_doc (coll_get (collection (snd (PostgresProvider.get (nested_key a b) JUndef st))) a)
  = true.
Proof.
  intros Hd. rewrite pg_get_nested_eq. simpl. split; [reflexivity|].
  destruct (coll_has (collection st) a); [exact Hd|].
  destruct (pg_set_nested_state st (JStr "") Hd) as [_ [f Hf]]. now rewrite Hf.
Qed.

(** One pushed value: the loop body's three cases. *)
Lemma pg_push_one (st : state) (x : jsval) :
  extendable_doc (coll_get (collection st) a) = true ->
  let cur := lodash_get (coll_get (collection st) a) b JNull in
  let w := if negb (truthy cur) then JArr [x]
           else if negb (is_array cur) then JArr [cur; x]
           else match cur with JArr l => JArr (l ++ [x]) | _ => cur end in
  let st2 := snd (PostgresProvider.push (nested_key a b) [x] st) in
  fst (PostgresProvider.push (nested_key a b) [x] st) = w /\
  PostgresProvider.get (nested_key a b) JUndef st2 = (w, st2) /\
  lodash_get (coll_get (collection st2) a) b JNull = w /\
  extendable_doc (coll_get (collection st2) a) = true.
Proof.
  intros Hd cur w st2.
  assert (Hw : w <> JUndef).
  { unfold w. clear st2 w. clearbody cur.
    destruct cur as [| |bb|n|s0|l|f]; simpl; try discriminate;
      [destruct bb | destruct (Z.eqb n 0) | destruct (String.eqb s0 "")];
      simpl; discriminate. }
  destruct (pg_get_nested_fetch st Hd) as [Hf Hd1].
  unfold st2, PostgresProvider.push.
  destruct (PostgresProvider.get (nested_key a b) JUndef st) as [fetched st1] eqn:E.
  simpl in Hf, Hd1. subst fetched.
  assert (Hl : PostgresProvider.push_loop (nested_key a b) cur [x] st1
               = snd (PostgresProvider.set (nested_key a b) w st1)).
  { unfold w. simpl.
    destruct (negb (truthy cur)); [reflexivity|].
    destruct (negb (is_array cur)); reflexivity. }
  fold cur. rewrite Hl.
  destruct (pg_set_then_get st1 w Hd1 Hw) as [Hg [Hl2 [_ Hd2]]].
  rewrite Hg. cbn [fst snd]. rewrite Hg. auto.
Qed.

End PostgresNested.

Lemma select_by_key_delete_rows_ne (t : list row) (k r : string) :
  r <> k -> select_by_key (delete_rows t k) r = select_by_key t r.
Proof.
  intros Hne. induction t as [|x t IH]; [reflexivity|].
  unfold delete_rows, select_by_key in *. simpl.
  destruct (String.eqb (row_key x) k) eqn:E1; simpl.
  - destruct (String.eqb (row_key x) r) eqn:E2; [|exact IH].
    apply String.eqb_eq in E1, E2. congruence.
  - destruct (String.eqb (row_key x) r); simpl; now rewrite IH.
Qed.

Lemma select_by_key_delete_rows_eq (t : list row) (k : string) :
  select_by_key (delete_rows t k) k = [].
Proof.
  induction t as [|x t IH]; [reflexivity|].
  unfold delete_rows, select_by_key in *. simpl.
  destruct (String.eqb (row_key x) k) eqn:E1; simpl; [exact IH|].
  now rewrite E1.
Qed.

Lemma root_ne_key (key : string) :
  includes_dot key = true -> fst (shift_split key) <> key.
Proof.
  intros H E. pose proof (shift_split_root_nodot key) as H'. rewrite E in H'. congruence.
Qed.

(** ** The claims *)

(** C1 (counterexample): in the PostgresProvider, with root ["a"] holding
    the number 5, [set("a.b", 7)] leaves the root unchanged (lodash's
    [_.set] returns a non-object as is), so [get("a.b")] is [null], not 7. *)
Lemma C1_scalar_root_cex :
  let st0 := mkState {[ "a" := JNum 5 ]} [mkRow "a" (Some "5")] in
  let st1 := snd (PostgresProvider.set "a.b" (JNum 7) st0) in
  fst (PostgresProvider.get "a.b" JUndef st1) <> JNum 7 /\
  fst (PostgresProvider.get "a.b" JUndef st1) = JNull /\
  fst (PostgresProvider.get "a" JUndef st1) = JNum 5.
Proof. vm_compute. split; [discriminate | split; reflexivity]. Qed.

(** C1 (amended): in the PostgresProvider, for a root key [a] whose cached
    document is absent, falsy or a plain object, a plain segment [b] and a
    value [v] other than [undefined], [set("a.b", v)] then [get("a.b")]
    returns [v], and [get("a")] returns an object binding [b] to [v]. *)
Theorem postgres_set_nested_get (st : state) (a b : string) (v : jsval) :
  includes_dot a = false -> plain_segment b = true -> v <> JUndef ->
  extendable_doc (coll_get (collection st) a) = true ->
  let st1 := snd (PostgresProvider.set (nested_key a b) v st) in
  fst (PostgresProvider.get (nested_key a b) JUndef st1) = v /\
  exists fields, fst (PostgresProvider.get a JUndef st1) = JObj fields /\
                 assoc_get fields b = Some v.
Proof.
  intros Ha Hp Hv Hd st1. unfold plain_segment in Hp.
  apply andb_true_iff in Hp as [Hp Hs]. apply andb_true_iff in Hp as [Hb _].
  apply negb_true_iff in Hb, Hs.
  destruct (pg_set_then_get a b Ha Hb Hs st v Hd Hv) as [Hg _].
  destruct (pg_set_nested_state a b Ha Hb Hs st v Hd) as [Hh [f Hf]].
  fold st1 in Hg, Hh, Hf. rewrite Hg. split; [reflexivity|].
  exists (assoc_set f b v).
  rewrite (pg_get_root_hit a Ha st1 JUndef Hh), Hf. split; [reflexivity|].
  apply assoc_get_set_eq.
Qed.

Lemma postgres_set_nested_get_witness :
  includes_dot "a" = false /\ plain_segment "b" = true /\ JNum 7 <> JUndef /\
  extendable_doc (coll_get (collection empty_state) "a") = true /\
  let st1 := snd (PostgresProvider.set (nested_key "a" "b") (JNum 7) empty_state) in
  fst (PostgresProvider.get (nested_key "a" "b") JUndef st1) = JNum 7 /\
  exists fields, fst (PostgresProvider.get "a" JUndef st1) = JObj fields /\
                 assoc_get fields "b" = Some (JNum 7).
Proof.
  refine (conj eq_refl (conj eq_refl (conj _ (conj eq_refl _)))).
  - discriminate.
  - apply (postgres_set_nested_get empty_state "a" "b" (JNum 7));
      [reflexivity | reflexivity | discriminate | reflexivity].
Defined.

(** C2 (code bug): the providers differ on the first [set] of a new root:
    the PostgresProvider inserts its row, the SqliteProvider (whose probe
    tests [fetchQuery.length < 0]) never does. *)
Lemma C2_providers_diverge_on_new_root :
  rows (snd (SqliteProvider.set "a" (JNum 1) empty_state)) = [] /\
  rows (snd (PostgresProvider.set "a" (JNum 1) empty_state)) = [mkRow "a" (Some "1")] /\
  collection (snd (SqliteProvider.set "a" (JNum 1) empty_state))
  = collection (snd (PostgresProvider.set "a" (JNum 1) empty_state)).
Proof. vm_compute. auto. Qed.

(** C3 (code bug): after the SqliteProvider's [set("a", 1)] on an empty
    table the Collection holds [a |-> 1] and the table has no row for [a]. *)
Lemma C3_sqlite_set_not_written_through :
  let st := snd (SqliteProvider.set "a" (JNum 1) empty_state) in
  coll_get (collection st) "a" = JNum 1 /\ select_by_key (rows st) "a" = [].
Proof. vm_compute. auto. Qed.

(** C4 (code bug): after [set("p", 1)] and [set("q", 2)] on an empty table,
    the SqliteProvider's [all()] is empty; the PostgresProvider's holds both. *)
Lemma C4_sqlite_all_after_two_sets :
  fst (SqliteProvider.all
         (snd (SqliteProvider.set "q" (JNum 2)
                 (snd (SqliteProvider.set "p" (JNum 1) empty_state))))) = Some ∅ /\
  fst (PostgresProvider.all
         (snd (PostgresProvider.set "q" (JNum 2)
                 (snd (PostgresProvider.set "p" (JNum 1) empty_state)))))
  = Some (<[ "q" := JNum 2 ]> (<[ "p" := JNum 1 ]> ∅)).
Proof. split; vm_compute; reflexivity. Qed.

(** C5 (code bug): after [init()] on a table whose row for ["a"] holds the
    serialised document [{"b":1}], both providers' [get("a")] return the
    serialised string, not the document it parses to. *)
Lemma C5_init_caches_serialised_string :
  let doc := JObj [("b", JNum 1)] in
  let s := match stringify doc with Some s => s | None => "" end in
  let st := mkState ∅ [mkRow "a" (Some s)] in
  json_parse s = Some doc /\
  fst (SqliteProvider.get "a" JUndef (SqliteProvider.init st)) = JStr s /\
  fst (PostgresProvider.get "a" JUndef (PostgresProvider.init st)) = JStr s /\
  JStr s <> doc.
Proof. vm_compute. split; [reflexivity | split; [reflexivity | split; [reflexivity | discriminate]]]. Qed.

(** C6 (code bug): on an empty Collection, [get("a.b", "x")] stores the
    default at [a.b] but returns [null]: the result is read from the
    Collection entry captured before the [set]. *)
Lemma C6_nested_miss_returns_null :
  let r := PostgresProvider.get "a.b" (JStr "x") empty_state in
  fst r = JNull /\ coll_get (collection (snd r)) "a" = JObj [("b", JStr "x")] /\
  fst (SqliteProvider.get "a.b" (JStr "x") empty_state) = JNull.
Proof. vm_compute. auto. Qed.




(** C8 (code bug): [fetch] returns [undefined] where [get] returns the
    value, in both providers. *)
Lemma C8_fetch_discards_get :
  let st := mkState {[ "a" := JNum 1 ]} [mkRow "a" (Some "1")] in
  fst (SqliteProvider.get "a" JUndef st) = JNum 1 /\
  fst (SqliteProvider.fetch "a" JUndef st) = JUndef /\
  fst (PostgresProvider.get "a" JUndef st) = JNum 1 /\
  fst (PostgresProvider.fetch "a" JUndef st) = JUndef.
Proof. vm_compute. auto. Qed.

(** C9: for a key without a dot, [has(key)] is Collection membership and
    leaves the state (Collection and table) unchanged, in both providers. *)
Theorem has_root_key_pure (key : string) (st : state) :
  includes_dot key = false ->
  SqliteProvider.has key st = (coll_has (collection st) key, st) /\
  PostgresProvider.has key st = (coll_has (collection st) key, st).
Proof.
  intros H. unfold SqliteProvider.has, PostgresProvider.has. now rewrite H.
Qed.

Lemma has_root_key_pure_witness :
  includes_dot "user" = false /\
  SqliteProvider.has "user" empty_state = (coll_has (collection empty_state) "user", empty_state) /\
  PostgresProvider.has "user" empty_state = (coll_has (collection empty_state) "user", empty_state).
Proof.
  split; [reflexivity|]. apply has_root_key_pure. reflexivity.
Defined.

(** C10: [delete(key)] removes the Collection entry and the rows whose key
    is the whole given string; for a dotted key the entry and the rows of
    its root key are unchanged, in both providers. *)
Theorem delete_dotted_key_frame (key : string) (st : state) :
  includes_dot key = true ->
  let root := fst (shift_split key) in
  (collection (SqliteProvider.delete key st) !! key = None /\
   select_by_key (rows (SqliteProvider.delete key st)) key = [] /\
   collection (SqliteProvider.delete key st) !! root = collection st !! root /\
   select_by_key (rows (SqliteProvider.delete key st)) root = select_by_key (rows st) root) /\
  (collection (PostgresProvider.delete key st) !! key = None /\
   select_by_key (rows (PostgresProvider.delete key st)) key = [] /\
   collection (PostgresProvider.delete key st) !! root = collection st !! root /\
   select_by_key (rows (PostgresProvider.delete key st)) root = select_by_key (rows st) root).
Proof.
  intros H root. pose proof (root_ne_key key H) as Hne. fold root in Hne.
  unfold SqliteProvider.delete, PostgresProvider.delete; simpl.
  rewrite lookup_delete_eq, select_by_key_delete_rows_eq,
    lookup_delete_ne, select_by_key_delete_rows_ne by congruence.
  auto.
Qed.

Lemma delete_dotted_key_frame_witness :
  let st := mkState {[ "a" := JObj [("b", JNum 1)] ]} [mkRow "a" (Some "1")] in
  includes_dot "a.b" = true /\
  collection (PostgresProvider.delete "a.b" st) !! "a" = collection st !! "a" /\
  select_by_key (rows (PostgresProvider.delete "a.b" st)) "a" = select_by_key (rows st) "a".
Proof.
  intros st. split; [reflexivity|].
  destruct (delete_dotted_key_frame "a.b" st eq_refl) as [_ [_ [_ [H1 H2]]]].
  split; [exact H1 | exact H2].
Defined.

(** ** Further properties of the providers *)

(** *** Table lemmas *)

Lemma select_by_key_update_eq (t : list row) (s : option string) (k : string) :
  select_by_key (update_rows t s k) k = repeat (mkRow k s) (length (select_by_key t k)).
Proof.
  induction t as [|x t IH]; [reflexivity|].
  unfold select_by_key, update_rows in *. simpl.
  destruct (String.eqb (row_key x) k) eqn:E; simpl; rewrite ?E.
  - apply String.eqb_eq in E. subst k. simpl. now rewrite IH.
  - exact IH.
Qed.

Lemma select_by_key_update_ne (t : list row) (s : option string) (k r : string) :
  r <> k -> select_by_key (update_rows t s k) r = select_by_key t r.
Proof.
  intros Hne. induction t as [|x t IH]; [reflexivity|].
  unfold select_by_key, update_rows in *. simpl.
  destruct (String.eqb (row_key x) k) eqn:E; simpl.
  - apply String.eqb_eq in E. subst k.
    destruct (String.eqb (row_key x) r) eqn:E2.
    + apply String.eqb_eq in E2. congruence.
    + exact IH.
  - destruct (String.eqb (row_key x) r); [now rewrite IH | exact IH].
Qed.

Lemma select_by_key_insert_eq (t : list row) (k : string) (s : option string) :
  select_by_key (insert_row t k s) k = (select_by_key t k ++ [mkRow k s])%list.
Proof.
  unfold select_by_key, insert_row. rewrite List.filter_app. simpl.
  now rewrite String.eqb_refl.
Qed.

Lemma select_by_key_insert_ne (t : list row) (k r : string) (s : option string) :
  r <> k -> select_by_key (insert_row t k s) r = select_by_key t r.
Proof.
  intros Hne. unfold select_by_key, insert_row. rewrite List.filter_app. simpl.
  destruct (String.eqb k r) eqn:E.
  - apply String.eqb_eq in E. congruence.
  - apply app_nil_r.
Qed.

Lemma update_rows_keys (t : list row) (s : option string) (k : string) :
  map row_key (update_rows t s k) = map row_key t.
Proof.
  induction t as [|x t IH]; [reflexivity|]. simpl.
  destruct (String.eqb (row_key x) k); simpl; now rewrite IH.
Qed.

Lemma shift_split_nodot (key : string) :
  includes_dot key = false -> shift_split key = (key, []).
Proof.
  intros H. unfold shift_split, split_dot. rewrite split_dot_acc_nodot by exact H.
  reflexivity.
Qed.

(** *** The shape of [set] on any key *)

(** PostgresProvider's [set]: the root gets a new document [d], its rows are
    inserted if missing and then all updated to [JSON.stringify(d)]. *)
Lemma pg_set_shape (key : string) (v : jsval) (st : state) :
  let root := fst (shift_split key) in
  exists d,
    collection (snd (PostgresProvider.set key v st)) = <[root := d]> (collection st) /\
    rows (snd (PostgresProvider.set key v st))
    = update_rows
        (if Nat.leb (length (select_by_key (rows st) root)) 0
         then insert_row (rows st) root (stringify d) else rows st)
        (stringify d) root /\
    fst (PostgresProvider.set key v st)
    = head (select_by_key (rows (snd (PostgresProvider.set key v st))) root) /\
    (includes_dot key = false -> d = v).
Proof.
  unfold PostgresProvider.set. destruct (includes_dot key) eqn:Hk.
  - destruct (shift_split key) as [r p] eqn:E. simpl.
    eexists. split; [reflexivity|]. split; [reflexivity|]. split; [reflexivity|].
    discriminate.
  - rewrite shift_split_nodot by exact Hk. simpl.
    eexists. split; [reflexivity|]. split; [reflexivity|]. split; reflexivity.
Qed.

(** SqliteProvider's [set]: the root gets a new document [d]; its existing
    rows are updated, and no row is ever inserted. *)
Lemma sqlite_set_shape (key : string) (v : jsval) (st : state) :
  let root := fst (shift_split key) in
  exists d,
    collection (snd (SqliteProvider.set key v st)) = <[root := d]> (collection st) /\
    rows (snd (SqliteProvider.set key v st)) = update_rows (rows st) (stringify d) root /\
    fst (SqliteProvider.set key v st)
    = head (select_by_key (rows (snd (SqliteProvider.set key v st))) root) /\
    (includes_dot key = false -> d = v).
Proof.
  unfold SqliteProvider.set. destruct (shift_split key) as [r p] eqn:E. simpl.
  destruct (Nat.ltb 1 (length p)) eqn:Hp; simpl.
  - eexists. split; [reflexivity|]. split; [reflexivity|]. split; [reflexivity|].
    intros Hk. rewrite shift_split_nodot in E by exact Hk. injection E as _ <-.
    discriminate.
  - eexists. split; [reflexivity|]. split; [reflexivity|]. split; reflexivity.
Qed.

(** *** [set] on a key without a dot *)

Lemma pg_set_root_coll (key : string) (v : jsval) (st : state) :
  includes_dot key = false ->
  collection (snd (PostgresProvider.set key v st)) = <[key := v]> (collection st).
Proof. intros Hk. unfold PostgresProvider.set. now rewrite Hk. Qed.

Lemma pg_set_root_rows (key : string) (v : jsval) (st : state) :
  includes_dot key = false ->
  rows (snd (PostgresProvider.set key v st))
  = update_rows
      (if Nat.leb (length (select_by_key (rows st) key)) 0
       then insert_row (rows st) key (stringify v) else rows st)
      (stringify v) key.
Proof. intros Hk. unfold PostgresProvider.set. now rewrite Hk. Qed.

Lemma pg_set_root_ret (key : string) (v : jsval) (st : state) :
  includes_dot key = false ->
  fst (PostgresProvider.set key v st)
  = head (select_by_key (rows (snd (PostgresProvider.set key v st))) key).
Proof. intros Hk. unfold PostgresProvider.set. now rewrite Hk. Qed.

Lemma sqlite_set_root_coll (key : string) (v : jsval) (st : state) :
  includes_dot key = false ->
  collection (snd (SqliteProvider.set key v st)) = <[key := v]> (collection st).
Proof. intros Hk. unfold SqliteProvider.set. now rewrite shift_split_nodot by exact Hk. Qed.

Lemma sqlite_set_root_rows (key : string) (v : jsval) (st : state) :
  includes_dot key = false ->
  rows (snd (SqliteProvider.set key v st)) = update_rows (rows st) (stringify v) key.
Proof. intros Hk. unfold SqliteProvider.set. now rewrite shift_split_nodot by exact Hk. Qed.

Lemma sqlite_set_root_ret (key : string) (v : jsval) (st : state) :
  includes_dot key = false ->
  fst (SqliteProvider.set key v st)
  = head (select_by_key (rows (snd (SqliteProvider.set key v st))) key).
Proof. intros Hk. unfold SqliteProvider.set. now rewrite shift_split_nodot by exact Hk. Qed.

Lemma pg_get_root_eq (key : string) (d : jsval) (st : state) :
  includes_dot key = false ->
  PostgresProvider.get key d st
  = if coll_has (collection st) key then (coll_get (collection st) key, st)
    else let st' := snd (PostgresProvider.set key (if truthy d then d else JStr "") st) in
         (coll_get (collection st') key, st').
Proof.
  intros Hk. unfold PostgresProvider.get. rewrite Hk.
  now destruct (coll_has (collection st) key).
Qed.

Lemma sqlite_get_root_eq (key : string) (d : jsval) (st : state) :
  includes_dot key = false ->
  SqliteProvider.get key d st
  = if coll_has (collection st) key then (coll_get (collection st) key, st)
    else let st' := snd (SqliteProvider.set key
                          (match d with JUndef => JStr "" | d => d end) st) in
         (coll_get (collection st') key, st').
Proof.
  intros Hk. unfold SqliteProvider.get. rewrite Hk.
  now destruct (coll_has (collection st) key).
Qed.



(** *** Rows written by [set] *)

Lemma pg_rows_select_eq (t : list row) (k : string) (s : option string) :
  select_by_key
    (update_rows
       (if Nat.leb (length (select_by_key t k)) 0 then insert_row t k s else t) s k) k
  = repeat (mkRow k s) (Nat.max 1 (length (select_by_key t k))).
Proof.
  rewrite select_by_key_update_eq.
  destruct (Nat.leb (length (select_by_key t k)) 0) eqn:E.
  - apply Nat.leb_le in E. rewrite select_by_key_insert_eq, length_app. simpl.
    f_equal. lia.
  - apply Nat.leb_gt in E. f_equal. lia.
Qed.

Lemma pg_rows_select_ne (t : list row) (k r : string) (s : option string) :
  r <> k ->
  select_by_key
    (update_rows
       (if Nat.leb (length (select_by_key t k)) 0 then insert_row t k s else t) s k) r
  = select_by_key t r.
Proof.
  intros Hne. rewrite select_by_key_update_ne by exact Hne.
  destruct (Nat.leb (length (select_by_key t k)) 0); [|reflexivity].
  now apply select_by_key_insert_ne.
Qed.

Lemma head_repeat_max (x : row) (n : nat) :
  head (repeat x (Nat.max 1 n)) = Some x.
Proof. replace (Nat.max 1 n) with (S (Nat.max 1 n - 1)) by lia. reflexivity. Qed.


(** X4: PostgresProvider's [set(key, v)] changes neither the cache entry nor
    the rows of any key other than the root of [key]. *)
Lemma pg_set_frame (key : string) (v : jsval) (st : state) (r : string) :
  r <> fst (shift_split key) ->
  collection (snd (PostgresProvider.set key v st)) !! r = collection st !! r /\
  select_by_key (rows (snd (PostgresProvider.set key v st))) r = select_by_key (rows st) r.
Proof.
  intros Hne. destruct (pg_set_shape key v st) as [d [Hc [Hr _]]].
  rewrite Hc, Hr. split.
  - now apply lookup_insert_ne.
  - now apply pg_rows_select_ne.
Qed.

(** X5: SqliteProvider's [set(key, v)] changes neither the cache entry nor
    the rows of any key other than the root of [key]. *)
Lemma sqlite_set_frame (key : string) (v : jsval) (st : state) (r : string) :
  r <> fst (shift_split key) ->
  collection (snd (SqliteProvider.set key v st)) !! r = collection st !! r /\
  select_by_key (rows (snd (SqliteProvider.set key v st))) r = select_by_key (rows st) r.
Proof.
  intros Hne. destruct (sqlite_set_shape key v st) as [d [Hc [Hr _]]].
  rewrite Hc, Hr. split.
  - now apply lookup_insert_ne.
  - now apply select_by_key_update_ne.
Qed.


(** X7: on a cache miss for a key without a dot, PostgresProvider's [get]
    returns [defaultValue || ""], caches it, and leaves at least one row for
    the key holding its [JSON.stringify]. *)
Lemma pg_get_miss_root (key : string) (d : jsval) (st : state) :
  includes_dot key = false -> coll_has (collection st) key = false ->
  let dflt := if truthy d then d else JStr "" in
  fst (PostgresProvider.get key d st) = dflt /\
  collection (snd (PostgresProvider.get key d st)) = <[key := dflt]> (collection st) /\
  select_by_key (rows (snd (PostgresProvider.get key d st))) key
  = repeat (mkRow key (stringify dflt)) (Nat.max 1 (length (select_by_key (rows st) key))).
Proof.
  intros Hk Hm dflt. rewrite pg_get_root_eq by exact Hk. rewrite Hm.
  cbv zeta. cbn [fst snd]. fold dflt.
  rewrite pg_set_root_coll, coll_get_insert, pg_set_root_rows, pg_rows_select_eq by exact Hk.
  auto.
Qed.

(** X8: on a cache miss for a key without a dot, SqliteProvider's [get]
    returns [defaultValue] ([""] when it is [undefined]) and caches it; the
    rows of the key, if any, are rewritten and none is added. *)
Lemma sqlite_get_miss_root (key : string) (d : jsval) (st : state) :
  includes_dot key = false -> coll_has (collection st) key = false ->
  let dflt := match d with JUndef => JStr "" | d => d end in
  fst (SqliteProvider.get key d st) = dflt /\
  collection (snd (SqliteProvider.get key d st)) = <[key := dflt]> (collection st) /\
  rows (snd (SqliteProvider.get key d st)) = update_rows (rows st) (stringify dflt) key.
Proof.
  intros Hk Hm dflt. rewrite sqlite_get_root_eq by exact Hk. rewrite Hm.
  cbv zeta. cbn [fst snd]. fold dflt.
  rewrite sqlite_set_root_coll, coll_get_insert, sqlite_set_root_rows by exact Hk.
  auto.
Qed.

(** *** [all()] and [delete] *)

Lemma parse_rows_fold_none (t : list row) :
  fold_left (fun (acc : option (gmap string jsval)) r =>
    match acc with
    | None => None
    | Some m =>
        match json_parse (match row_value r with Some s => s | None => "null" end) with
        | Some v => Some (<[row_key r := v]> m)
        | None => None
        end
    end) t None = None.
Proof. induction t as [|r t IH]; [reflexivity|]. exact IH. Qed.

Lemma parse_rows_fold_frame (t : list row) (k : string) :
  Forall (fun r => row_key r <> k) t ->
  forall acc m,
  fold_left (fun (acc : option (gmap string jsval)) r =>
    match acc with
    | None => None
    | Some m =>
        match json_parse (match row_value r with Some s => s | None => "null" end) with
        | Some v => Some (<[row_key r := v]> m)
        | None => None
        end
    end) t (Some acc) = Some m ->
  m !! k = acc !! k.
Proof.
  induction t as [|r t IH]; intros Hall acc m H.
  - simpl in H. congruence.
  - inversion Hall as [|? ? Hr Hall']; subst. simpl in H.
    destruct (json_parse (match row_value r with Some s => s | None => "null" end)).
    + rewrite (IH Hall' _ _ H). now apply lookup_insert_ne.
    + rewrite parse_rows_fold_none in H. discriminate.
Qed.

Lemma parse_rows_absent (t : list row) (k : string) (m : gmap string jsval) :
  Forall (fun r => row_key r <> k) t -> parse_rows t = Some m -> m !! k = None.
Proof.
  intros Hall H. unfold parse_rows in H.
  rewrite (parse_rows_fold_frame t k Hall _ _ H). reflexivity.
Qed.

Lemma delete_rows_absent (t : list row) (k : string) :
  Forall (fun r => row_key r <> k) (delete_rows t k).
Proof.
  apply List.Forall_forall. intros r Hr. unfold delete_rows in Hr.
  apply List.filter_In in Hr as [_ Hr]. intros E. subst k.
  rewrite String.eqb_refl in Hr. discriminate.
Qed.

Lemma coll_has_delete (c : gmap string jsval) (k : string) :
  coll_has (base.delete k c) k = false.
Proof. unfold coll_has. now rewrite lookup_delete_eq. Qed.

(** X9: after PostgresProvider's [delete(key)] on a key without a dot,
    [has(key)] is false, and [all()], when it succeeds, has no entry for
    the key. *)
Lemma pg_delete_then_has (key : string) (st : state) :
  includes_dot key = false ->
  PostgresProvider.has key (PostgresProvider.delete key st)
  = (false, PostgresProvider.delete key st) /\
  forall m, fst (PostgresProvider.all (PostgresProvider.delete key st)) = Some m ->
  m !! key = None.
Proof.
  intros Hk. split.
  - unfold PostgresProvider.has. rewrite Hk. unfold PostgresProvider.delete at 1.
    cbn [collection]. now rewrite coll_has_delete.
  - intros m H. apply (parse_rows_absent (delete_rows (rows st) key)); [|exact H].
    apply delete_rows_absent.
Qed.

(** X10: after SqliteProvider's [delete(key)] on a key without a dot,
    [has(key)] is false, and [all()], when it succeeds, has no entry for
    the key. *)
Lemma sqlite_delete_then_has (key : string) (st : state) :
  includes_dot key = false ->
  SqliteProvider.has key (SqliteProvider.delete key st)
  = (false, SqliteProvider.delete key st) /\
  forall m, fst (SqliteProvider.all (SqliteProvider.delete key st)) = Some m ->
  m !! key = None.
Proof.
  intros Hk. split.
  - unfold SqliteProvider.has. rewrite Hk. unfold SqliteProvider.delete at 1.
    cbn [collection]. now rewrite coll_has_delete.
  - intros m H. apply (parse_rows_absent (delete_rows (rows st) key)); [|exact H].
    apply delete_rows_absent.
Qed.

(** *** [has] *)

(** X11: after PostgresProvider's [set(key, v)] on a key without a dot,
    [has(key)] is true, even for [v = undefined]. *)
Lemma pg_set_then_has_root (key : string) (v : jsval) (st : state) :
  includes_dot key = false ->
  PostgresProvider.has key (snd (PostgresProvider.set key v st))
  = (true, snd (PostgresProvider.set key v st)).
Proof.
  intros Hk. unfold PostgresProvider.has. rewrite Hk.
  now rewrite pg_set_root_coll, coll_has_insert by exact Hk.
Qed.

(** X12: after SqliteProvider's [set(key, v)] on a key without a dot,
    [has(key)] is true, even for [v = undefined]. *)
Lemma sqlite_set_then_has_root (key : string) (v : jsval) (st : state) :
  includes_dot key = false ->
  SqliteProvider.has key (snd (SqliteProvider.set key v st))
  = (true, snd (SqliteProvider.set key v st)).
Proof.
  intros Hk. unfold SqliteProvider.has. rewrite Hk.
  now rewrite sqlite_set_root_coll, coll_has_insert by exact Hk.
Qed.

Lemma lodash_has_assoc_set (f : list (string * jsval)) (b : string) (v : jsval) :
  includes_dot b = false -> lodash_has (JObj (assoc_set f b v)) b = true.
Proof.
  intros Hb. unfold lodash_has, cast_path. rewrite Hb. simpl.
  now rewrite assoc_get_set_eq.
Qed.

(** X13: after PostgresProvider's [set("a.b", v)] on a root that is absent,
    falsy or a plain object, [has("a.b")] is true, even for
    [v = undefined]. *)
Lemma pg_set_then_has_nested (a b : string) (v : jsval) (st : state) :
  includes_dot a = false -> includes_dot b = false -> unsafe_key b = false ->
  extendable_doc (coll_get (collection st) a) = true ->
  PostgresProvider.has (nested_key a b) (snd (PostgresProvider.set (nested_key a b) v st))
  = (true, snd (PostgresProvider.set (nested_key a b) v st)).
Proof.
  intros Ha Hb Hs Hd.
  destruct (pg_set_nested_state a b Ha Hb Hs st v Hd) as [Hh [f Hf]].
  unfold PostgresProvider.has. unfold nested_key in *.
  rewrite includes_dot_nested, shift_split_nested by assumption.
  unfold PostgresProvider.get. rewrite Ha, Hh. cbn [join_dot].
  rewrite Hf. now rewrite lodash_has_assoc_set.
Qed.

Lemma lodash_has_empty_string (b : string) :
  includes_dot b = false -> lodash_has (JStr "") b = String.eqb b "length".
Proof.
  intros Hb. unfold lodash_has, cast_path. rewrite Hb. simpl.
  destruct (String.eqb b "length"); [reflexivity|].
  now destruct (is_index b).
Qed.

(** X14: PostgresProvider's [has("a.b")] on an absent root, with [b] free of
    dots and brackets (so lodash reads it as one key), stores [""] under [a]
    (through [get]) and answers whether [b] is ["length"]. *)
Lemma pg_has_absent_root (a b : string) (st : state) :
  includes_dot a = false -> includes_dot b = false -> has_bracket b = false ->
  coll_has (collection st) a = false ->
  PostgresProvider.has (nested_key a b) st
  = (String.eqb b "length", snd (PostgresProvider.set a (JStr "") st)).
Proof.
  intros Ha Hb _ Hm. unfold PostgresProvider.has, nested_key.
  rewrite includes_dot_nested, shift_split_nested by assumption.
  rewrite pg_get_root_eq by exact Ha. rewrite Hm. cbv zeta. cbn [truthy join_dot].
  rewrite pg_set_root_coll, coll_get_insert by exact Ha.
  now rewrite lodash_has_empty_string.
Qed.

(** X15: SqliteProvider's [has("a.b")] on an absent root, with [b] free of
    dots and brackets (so lodash reads it as one key), stores [""] under [a]
    (through [get]) and answers whether [b] is ["length"]. *)
Lemma sqlite_has_absent_root (a b : string) (st : state) :
  includes_dot a = false -> includes_dot b = false -> has_bracket b = false ->
  coll_has (collection st) a = false ->
  SqliteProvider.has (nested_key a b) st
  = (String.eqb b "length", snd (SqliteProvider.set a (JStr "") st)).
Proof.
  intros Ha Hb _ Hm. unfold SqliteProvider.has, nested_key.
  rewrite includes_dot_nested, shift_split_nested by assumption.
  rewrite sqlite_get_root_eq by exact Ha. rewrite Hm. cbv zeta. cbn [join_dot].
  rewrite sqlite_set_root_coll, coll_get_insert by exact Ha.
  now rewrite lodash_has_empty_string.
Qed.

(** *** [push] on a key without a dot *)

Lemma coll_has_some (c : gmap string jsval) (k : string) (v : jsval) :
  c !! k = Some v -> coll_has c k = true.
Proof. unfold coll_has. now intros ->. Qed.

Lemma coll_get_some (c : gmap string jsval) (k : string) (v : jsval) :
  c !! k = Some v -> coll_get c k = v.
Proof. unfold coll_get. now intros ->. Qed.

Lemma pg_push_loop_root (key : string) (values : list jsval) :
  includes_dot key = false ->
  forall l st, collection st !! key = Some (JArr l) ->
  collection (PostgresProvider.push_loop key (JArr l) values st)
  = <[key := JArr (l ++ values)%list]> (collection st).
Proof.
  intros Hk. induction values as [|v vs IH]; intros l st H.
  - simpl. rewrite app_nil_r. symmetry. now apply insert_id.
  - cbn [PostgresProvider.push_loop truthy is_array negb].
    rewrite IH.
    + rewrite pg_set_root_coll, insert_insert_eq, <- app_assoc by exact Hk.
      reflexivity.
    + rewrite pg_set_root_coll by exact Hk. apply lookup_insert_eq.
Qed.

Lemma sqlite_push_loop_root (key : string) (values : list jsval) :
  includes_dot key = false ->
  forall l st, collection st !! key = Some (JArr l) ->
  collection (SqliteProvider.push_loop key (JArr l) values st)
  = <[key := JArr (l ++ values)%list]> (collection st).
Proof.
  intros Hk. induction values as [|v vs IH]; intros l st H.
  - simpl. rewrite app_nil_r. symmetry. now apply insert_id.
  - cbn [SqliteProvider.push_loop truthy is_array negb].
    rewrite IH.
    + rewrite sqlite_set_root_coll, insert_insert_eq, <- app_assoc by exact Hk.
      reflexivity.
    + rewrite sqlite_set_root_coll by exact Hk. apply lookup_insert_eq.
Qed.



(** *** [all()] failing *)

Lemma parse_rows_fold_fail (t : list row) (r : row) :
  In r t ->
  json_parse (match row_value r with Some s => s | None => "null" end) = None ->
  forall acc,
  fold_left (fun (acc : option (gmap string jsval)) r =>
    match acc with
    | None => None
    | Some m =>
        match json_parse (match row_value r with Some s => s | None => "null" end) with
        | Some v => Some (<[row_key r := v]> m)
        | None => None
        end
    end) t acc = None.
Proof.
  intros Hin Hp. induction t as [|x t IH]; [destruct Hin|].
  intros acc. destruct Hin as [<-|Hin].
  - simpl. destruct acc; [rewrite Hp|]; apply parse_rows_fold_none.
  - apply IH. exact Hin.
Qed.

Lemma json_parse_not_json_text (s : string) :
  not_json_text s = true -> json_parse s = None.
Proof.
  unfold not_json_text, json_parse. intros H. cbn [parse_value].
  destruct (skip_ws (list_ascii_of_string s)) as [|c r]; [reflexivity|].
  unfold json_start in H. apply negb_true_iff in H.
  repeat rewrite orb_false_iff in H.
  destruct H as [[[[[[[H1 H2] H3] H4] H5] H6] H7] H8].
  now rewrite H1, H2, H3, H4, H5, H6, H7, H8.
Qed.

(** X18: PostgresProvider's [all()] fails ([JSON.parse] throws), changing nothing,
    as soon as one row holds a text no JSON value can begin, such as an
    empty string or plain words. *)
Lemma pg_all_fails (st : state) (k s : string) :
  In (mkRow k (Some s)) (rows st) -> not_json_text s = true ->
  PostgresProvider.all st = (None, st).
Proof.
  intros Hin Hs. unfold PostgresProvider.all, parse_rows.
  now rewrite (parse_rows_fold_fail _ _ Hin (json_parse_not_json_text s Hs)).
Qed.

(** X19: SqliteProvider's [all()] fails ([JSON.parse] throws), changing nothing,
    as soon as one row holds a text no JSON value can begin, such as an
    empty string or plain words. *)
Lemma sqlite_all_fails (st : state) (k s : string) :
  In (mkRow k (Some s)) (rows st) -> not_json_text s = true ->
  SqliteProvider.all st = (None, st).
Proof.
  intros Hin Hs. unfold SqliteProvider.all, parse_rows.
  now rewrite (parse_rows_fold_fail _ _ Hin (json_parse_not_json_text s Hs)).
Qed.

(** *** [init()] *)

Lemma select_by_key_snoc (t : list row) (x : row) (k : string) :
  select_by_key (t ++ [x])%list k
  = (select_by_key t k ++ (if String.eqb (row_key x) k then [x] else []))%list.
Proof. unfold select_by_key. rewrite List.filter_app. reflexivity. Qed.

Lemma load_rows_lookup (c : gmap string jsval) (t : list row) (k : string) :
  load_rows c t !! k
  = match last (select_by_key t k) with
    | Some r => Some (row_value_js r)
    | None => c !! k
    end.
Proof.
  induction t as [|x t IH] using rev_ind; [reflexivity|].
  unfold load_rows in *. rewrite fold_left_app, select_by_key_snoc. simpl.
  destruct (String.eqb (row_key x) k) eqn:E.
  - apply String.eqb_eq in E. subst k. rewrite last_snoc. apply lookup_insert_eq.
  - apply String.eqb_neq in E. rewrite app_nil_r, lookup_insert_ne by exact E.
    exact IH.
Qed.

(** X20: PostgresProvider's [init()] leaves the table as it is and caches,
    for each key with rows, the raw value of its last row, and keeps the
    other cache entries. *)
Lemma pg_init_lookup (st : state) (k : string) :
  rows (PostgresProvider.init st) = rows st /\
  collection (PostgresProvider.init st) !! k
  = match last (select_by_key (rows st) k) with
    | Some r => Some (row_value_js r)
    | None => collection st !! k
    end.
Proof. split; [reflexivity|]. apply load_rows_lookup. Qed.

(** X21: SqliteProvider's [init()] leaves the table as it is and caches, for
    each key with rows, the raw value of its last row, and keeps the other
    cache entries. *)
Lemma sqlite_init_lookup (st : state) (k : string) :
  rows (SqliteProvider.init st) = rows st /\
  collection (SqliteProvider.init st) !! k
  = match last (select_by_key (rows st) k) with
    | Some r => Some (row_value_js r)
    | None => collection st !! k
    end.
Proof. split; [reflexivity|]. apply load_rows_lookup. Qed.

(** *** [fetch] *)

(** X22: PostgresProvider's [fetch(key, d)] returns [undefined] and leaves
    exactly the state [get(key, d)] leaves; a falsy [d] is passed on as
    [undefined], which [get] treats like [d]. *)
Lemma pg_fetch_is_get (key : string) (d : jsval) (st : state) :
  PostgresProvider.fetch key d st = (JUndef, snd (PostgresProvider.get key d st)).
Proof.
  unfold PostgresProvider.fetch. destruct (truthy d) eqn:E.
  - now destruct (PostgresProvider.get key d st).
  - replace (PostgresProvider.get key JUndef st) with (PostgresProvider.get key d st)
      by (unfold PostgresProvider.get; now rewrite E).
    now destruct (PostgresProvider.get key d st).
Qed.

(** *** JSON round trip *)

Lemma list_ascii_append (a b : string) :
  list_ascii_of_string (String.append a b) = (list_ascii_of_string a ++ list_ascii_of_string b)%list.
Proof. induction a as [|c a IH]; [reflexivity|]. rewrite append_String. simpl. now rewrite IH. Qed.

Lemma parse_str_escape_char (c : ascii) (L : list ascii) :
  parse_str (list_ascii_of_string (escape_char c) ++ L)%list
  = match parse_str L with Some (t, r) => Some (String c t, r) | None => None end.
Proof.
  destruct c as [[] [] [] [] [] [] [] []]; reflexivity.
Qed.

Lemma parse_str_escape (s : string) (rest : list ascii) :
  parse_str (list_ascii_of_string (escape s) ++ quote_char :: rest)%list = Some (s, rest).
Proof.
  induction s as [|c s IH]; [reflexivity|].
  cbn [escape]. rewrite list_ascii_append, <- app_assoc, parse_str_escape_char, IH.
  reflexivity.
Qed.

Lemma list_ascii_quote (s : string) :
  list_ascii_of_string (quote s)
  = (quote_char :: list_ascii_of_string (escape s) ++ [quote_char])%list.
Proof. unfold quote. cbn [list_ascii_of_string]. now rewrite list_ascii_append. Qed.

(** Decimal digits *)

Definition digit_step (a : Z) (c : ascii) : Z := (a * 10 + Z.of_nat (nat_of_ascii c - 48))%Z.

Lemma digit_char (m : N) :
  (m < 10)%N ->
  is_digit (ascii_of_N (48 + m)) = true /\
  Z.of_nat (nat_of_ascii (ascii_of_N (48 + m)) - 48) = Z.of_N m /\
  (Ascii.eqb (ascii_of_N (48 + m)) "0"%char = true -> m = 0%N).
Proof.
  intros H.
  assert (m = 0 \/ m = 1 \/ m = 2 \/ m = 3 \/ m = 4 \/ m = 5 \/ m = 6 \/ m = 7
          \/ m = 8 \/ m = 9)%N as Hm by lia.
  repeat destruct Hm as [->|Hm]; [..|subst m];
    (split; [reflexivity|split; [reflexivity|]]); cbv; intros E;
    (reflexivity || discriminate E).
Qed.

Lemma take_digits_app (D R : list ascii) (a : Z) :
  forallb is_digit D = true ->
  take_digits (D ++ R)%list a = take_digits R (fold_left digit_step D a).
Proof.
  revert a. induction D as [|c D IH]; intros a H; [reflexivity|].
  simpl in H. apply andb_prop in H as [Hc HD]. simpl. rewrite Hc. now apply IH.
Qed.

Lemma take_digits_stop (R : list ascii) (a : Z) :
  match R with c :: _ => is_digit c = false | [] => True end ->
  take_digits R a = (a, R).
Proof. destruct R as [|c R]; simpl; [reflexivity|]. now intros ->. Qed.

Lemma N_digits_spec (fuel : nat) :
  forall (n : N) (acc : string), (n < 10 ^ N.of_nat fuel)%N -> fuel <> O ->
  exists D,
    list_ascii_of_string (N_digits fuel n acc) = (D ++ list_ascii_of_string acc)%list /\
    forallb is_digit D = true /\
    (forall a, fold_left digit_step D a = a * 10 ^ Z.of_nat (length D) + Z.of_N n)%Z /\
    match D with
    | c :: _ => Ascii.eqb c "0"%char = true -> n = 0%N /\ D = ["0"%char]
    | [] => False
    end.
Proof.
  induction fuel as [|f IH]; intros n acc Hn Hf; [congruence|].
  cbn [N_digits].
  assert (Hm : (n mod 10 < 10)%N) by (apply N.mod_lt; lia).
  destruct (digit_char _ Hm) as [Hd [Hv H0]].
  pose proof (N.div_mod n 10 ltac:(lia)) as Hdm.
  destruct (N.eqb (n / 10) 0) eqn:Eq.
  - apply N.eqb_eq in Eq.
    exists [ascii_of_N (48 + n mod 10)]. split; [reflexivity|].
    split; [simpl; now rewrite Hd|]. split.
    + intros a. simpl. unfold digit_step. rewrite Hv. lia.
    + intros E. specialize (H0 E). split; [lia|].
      rewrite H0. reflexivity.
  - apply N.eqb_neq in Eq.
    assert (Hq : (n / 10 < 10 ^ N.of_nat f)%N).
    { rewrite Nat2N.inj_succ, N.pow_succ_r' in Hn. lia. }
    assert (Hf' : f <> O).
    { intros ->. simpl in Hq. lia. }
    destruct (IH (n / 10)%N (String (ascii_of_N (48 + n mod 10)) acc) Hq Hf')
      as [D [HL [HD [Hval Hz]]]].
    exists (D ++ [ascii_of_N (48 + n mod 10)])%list. split.
    + rewrite HL. cbn [list_ascii_of_string]. now rewrite <- app_assoc.
    + split; [rewrite forallb_app; simpl; now rewrite HD, Hd|]. split.
      * intros a. rewrite fold_left_app, Hval. simpl. unfold digit_step. rewrite Hv.
        rewrite length_app, Nat2Z.inj_add, Z.pow_add_r by lia. simpl.
        nia.
      * destruct D as [|c D]; [contradiction|]. simpl. intros E.
        destruct (Hz E) as [Hq0 _]. contradiction.
Qed.

Lemma size_nat_bound_pos (p : positive) :
  (N.pos p < 2 ^ N.of_nat (Pos.size_nat p))%N.
Proof.
  induction p as [p IH|p IH|]; cbn [Pos.size_nat]; [| |reflexivity];
    rewrite Nat2N.inj_succ, N.pow_succ_r'; lia.
Qed.

Lemma size_nat_bound (n : N) : (n < 10 ^ N.of_nat (S (N.size_nat n)))%N.
Proof.
  destruct n as [|p]; [reflexivity|].
  pose proof (size_nat_bound_pos p) as H. cbn [N.size_nat].
  assert (2 ^ N.of_nat (Pos.size_nat p) <= 10 ^ N.of_nat (Pos.size_nat p))%N
    by (apply N.pow_le_mono_l; lia).
  rewrite Nat2N.inj_succ, N.pow_succ_r'. lia.
Qed.

Lemma Z_to_dec_spec (z : Z) :
  exists D,
    list_ascii_of_string (Z_to_dec z)
    = ((if Z.ltb z 0 then ["-"%char] else []) ++ D)%list /\
    forallb is_digit D = true /\
    fold_left digit_step D 0%Z = Z.abs z /\
    match D with
    | c :: _ => Ascii.eqb c "0"%char = true -> z = 0%Z /\ D = ["0"%char]
    | [] => False
    end.
Proof.
  unfold Z_to_dec. destruct (Z.ltb z 0) eqn:E.
  - apply Z.ltb_lt in E.
    destruct (N_digits_spec _ (Z.to_N (- z)) "" (size_nat_bound _) ltac:(discriminate))
      as [D [HL [HD [Hv Hz]]]].
    exists D. cbn [list_ascii_of_string]. rewrite HL, app_nil_r.
    split; [reflexivity|]. split; [exact HD|]. split.
    + rewrite Hv. rewrite Z2N.id by lia. lia.
    + destruct D as [|c D]; [contradiction|]. intros E0. destruct (Hz E0). lia.
  - apply Z.ltb_ge in E.
    destruct (N_digits_spec _ (Z.to_N z) "" (size_nat_bound _) ltac:(discriminate))
      as [D [HL [HD [Hv Hz]]]].
    exists D. rewrite HL, app_nil_r.
    split; [reflexivity|]. split; [exact HD|]. split.
    + rewrite Hv. rewrite Z2N.id by lia. lia.
    + destruct D as [|c D]; [contradiction|]. intros E0. destruct (Hz E0) as [Hz0 HD0].
      split; [lia|exact HD0].
Qed.

Lemma digit_neq (c x : ascii) :
  is_digit c = true -> is_digit x = false -> Ascii.eqb c x = false.
Proof.
  intros Hc Hx. destruct (Ascii.eqb c x) eqn:E; [|reflexivity].
  apply Ascii.eqb_eq in E. subst. congruence.
Qed.

Lemma delim_cases (R : list ascii) :
  delim R = true ->
  R = [] \/ exists R', R = ","%char :: R' \/ R = "]"%char :: R' \/ R = "}"%char :: R'.
Proof.
  destruct R as [|c R]; [auto|]. simpl. intros H. right. exists R.
  repeat (apply orb_prop in H as [H|H]); apply Ascii.eqb_eq in H; subst; auto.
Qed.

Lemma take_digits_delim (R : list ascii) (a : Z) :
  delim R = true -> take_digits R a = (a, R).
Proof.
  intros H. apply take_digits_stop.
  destruct (delim_cases R H) as [->|[R' [->|[->| ->]]]]; reflexivity.
Qed.

Lemma number_tail_delim (R : list ascii) (x : jsval) :
  delim R = true ->
  match R with
  | c :: _ =>
      if Ascii.eqb c "."%char || Ascii.eqb c "e"%char || Ascii.eqb c "E"%char then None
      else Some (x, R)
  | [] => Some (x, R)
  end = Some (x, R).
Proof. intros H. destruct (delim_cases R H) as [->|[R' [->|[->| ->]]]]; reflexivity. Qed.

Lemma parse_number_dec (z : Z) (R : list ascii) :
  delim R = true ->
  parse_number (list_ascii_of_string (Z_to_dec z) ++ R)%list = Some (JNum z, R).
Proof.
  intros HR. destruct (Z_to_dec_spec z) as [D [HL [HD [Hv Hz]]]]. rewrite HL.
  destruct D as [|c D]; [contradiction|].
  simpl in HD. apply andb_prop in HD as [Hc HD].
  assert (Hv' : fold_left digit_step D (Z.of_nat (nat_of_ascii c - 48)) = Z.abs z).
  { rewrite <- Hv. reflexivity. }
  unfold parse_number. destruct (Z.ltb z 0) eqn:E.
  - apply Z.ltb_lt in E. cbn [List.app].
    change (Ascii.eqb "-"%char "-"%char) with true. cbv iota.
    destruct (Ascii.eqb c "0"%char) eqn:E0; [destruct (Hz eq_refl); lia|].
    rewrite Hc, take_digits_app, Hv', take_digits_delim by assumption.
    rewrite number_tail_delim by exact HR. do 3 f_equal. lia.
  - apply Z.ltb_ge in E. cbn [List.app].
    rewrite (digit_neq c "-"%char Hc eq_refl). cbv iota.
    destruct (Ascii.eqb c "0"%char) eqn:E0.
    + destruct (Hz eq_refl) as [-> HD0]. injection HD0 as -> ->. cbn [List.app].
      now rewrite number_tail_delim by exact HR.
    + rewrite Hc, take_digits_app, Hv', take_digits_delim by assumption.
      rewrite number_tail_delim by exact HR. do 3 f_equal. lia.
Qed.

(** Texts of arrays and objects *)

Lemma list_concat_comma {A} (f : A -> string) (x : A) (xs : list A) :
  list_ascii_of_string (String.concat "," (map f (x :: xs)))
  = (list_ascii_of_string (f x)
     ++ flat_map (fun y => ","%char :: list_ascii_of_string (f y)) xs)%list.
Proof.
  revert x. induction xs as [|y xs IH]; intros x.
  - simpl. now rewrite app_nil_r.
  - change (String.concat "," (map f (x :: y :: xs)))
      with (String.append (f x) (String.append "," (String.concat "," (map f (y :: xs))))).
    rewrite !list_ascii_append, IH. reflexivity.
Qed.

Lemma stringify_doc (v : jsval) : json_doc v = true -> stringify v = Some (elem_text v).
Proof.
  unfold elem_text. destruct v as [| |[]| | | |]; try discriminate; reflexivity.
Qed.

Lemma members_doc (fs : list (string * jsval)) :
  forallb (fun kv => json_doc (snd kv)) fs = true ->
  flat_map (fun kx =>
    match stringify (snd kx) with
    | Some s => [String.append (quote (fst kx)) (String.append ":" s)]
    | None => []
    end) fs = map member_text fs.
Proof.
  induction fs as [|[k x] fs IH]; [reflexivity|]. simpl. intros H.
  apply andb_prop in H as [Hx H]. rewrite (stringify_doc x Hx), IH by exact H.
  reflexivity.
Qed.

Lemma arr_text (e : jsval) (es : list jsval) :
  list_ascii_of_string (elem_text (JArr (e :: es)))
  = ("["%char :: list_ascii_of_string (elem_text e)
       ++ flat_map (fun y => ","%char :: list_ascii_of_string (elem_text y)) es
       ++ ["]"%char])%list.
Proof.
  change (elem_text (JArr (e :: es)))
    with (String.append "[" (String.append (String.concat "," (map elem_text (e :: es))) "]")).
  rewrite !list_ascii_append, list_concat_comma. simpl. now rewrite <- app_assoc.
Qed.

Lemma obj_text (m : string * jsval) (ms : list (string * jsval)) :
  forallb (fun kv => json_doc (snd kv)) (m :: ms) = true ->
  list_ascii_of_string (elem_text (JObj (m :: ms)))
  = ("{"%char :: list_ascii_of_string (member_text m)
       ++ flat_map (fun y => ","%char :: list_ascii_of_string (member_text y)) ms
       ++ ["}"%char])%list.
Proof.
  intros H.
  change (elem_text (JObj (m :: ms)))
    with (String.append "{" (String.append (String.concat ","
       (flat_map (fun kx =>
          match stringify (snd kx) with
          | Some s => [String.append (quote (fst kx)) (String.append ":" s)]
          | None => []
          end) (m :: ms))) "}")).
  rewrite members_doc by exact H.
  rewrite !list_ascii_append, list_concat_comma. simpl. now rewrite <- app_assoc.
Qed.

Lemma member_text_list (k : string) (x : jsval) :
  list_ascii_of_string (member_text (k, x))
  = (quote_char :: list_ascii_of_string (escape k)
       ++ quote_char :: ":"%char :: list_ascii_of_string (elem_text x))%list.
Proof.
  unfold member_text. cbn [fst snd]. rewrite list_ascii_append, list_ascii_quote.
  simpl. now rewrite <- app_assoc.
Qed.

(** The first character of a JSON text *)
Lemma elem_text_head (v : jsval) :
  json_doc v = true ->
  exists c r, list_ascii_of_string (elem_text v) = c :: r /\
    is_ws c = false /\ Ascii.eqb c "]"%char = false /\ Ascii.eqb c "}"%char = false.
Proof.
  intros H. destruct v as [| |b|z|s|l|f]; try discriminate.
  - do 2 eexists. split; [reflexivity|]. auto.
  - destruct b; do 2 eexists; (split; [reflexivity|]); auto.
  - destruct (Z_to_dec_spec z) as [D [HL [HD [_ Hz]]]].
    unfold elem_text. cbn [stringify]. rewrite HL.
    destruct (Z.ltb z 0).
    + do 2 eexists. split; [reflexivity|]. auto.
    + destruct D as [|c D]; [contradiction|]. simpl in HD. apply andb_prop in HD as [Hc _].
      exists c, D. split; [reflexivity|].
      split; [|split; apply digit_neq; auto].
      destruct (is_ws c) eqn:E; [|reflexivity].
      unfold is_ws, is_digit in *. apply andb_prop in Hc as [H1 H2].
      apply Nat.leb_le in H1. rewrite ?orb_true_iff, ?Nat.eqb_eq in E. lia.
  - unfold elem_text. cbn [stringify]. rewrite list_ascii_quote.
    do 2 eexists. split; [reflexivity|]. auto.
  - unfold elem_text. cbn [stringify]. rewrite list_ascii_append.
    do 2 eexists. split; [reflexivity|]. auto.
  - unfold elem_text. cbn [stringify]. rewrite list_ascii_append.
    do 2 eexists. split; [reflexivity|]. auto.
Qed.

Lemma digit_not_ws (c : ascii) : is_digit c = true -> is_ws c = false.
Proof.
  intros Hc. destruct (is_ws c) eqn:E; [|reflexivity].
  unfold is_ws, is_digit in *. apply andb_prop in Hc as [H1 H2].
  apply Nat.leb_le in H1. rewrite ?orb_true_iff, ?Nat.eqb_eq in E. lia.
Qed.

Lemma skip_ws_head (c : ascii) (r : list ascii) :
  is_ws c = false -> skip_ws (c :: r) = c :: r.
Proof. simpl. now intros ->. Qed.

Lemma keys_distinct_fresh (l1 : list string) (k : string) (l2 : list string) :
  keys_distinct (l1 ++ k :: l2) = true -> existsb (String.eqb k) l1 = false.
Proof.
  induction l1 as [|x l1 IH]; [reflexivity|]. simpl. intros H.
  apply andb_prop in H as [Hx H]. rewrite (IH H), orb_false_r.
  destruct (String.eqb k x) eqn:E; [|reflexivity].
  apply String.eqb_eq in E. subst x. rewrite existsb_app in Hx. simpl in Hx.
  rewrite String.eqb_refl in Hx. rewrite orb_true_r in Hx. discriminate.
Qed.

Lemma assoc_set_fresh (acc : list (string * jsval)) (k : string) (v : jsval) :
  existsb (String.eqb k) (map fst acc) = false -> assoc_set acc k v = (acc ++ [(k, v)])%list.
Proof.
  induction acc as [|[k' v'] acc IH]; [reflexivity|]. simpl. intros H.
  apply orb_false_elim in H as [H1 H2]. rewrite H1. now rewrite IH.
Qed.

Lemma delim_elems (es : list jsval) (rest : list ascii) :
  delim (flat_map (fun y => ","%char :: list_ascii_of_string (elem_text y)) es
         ++ "]"%char :: rest)%list = true.
Proof. destruct es; reflexivity. Qed.

Lemma delim_members (ms : list (string * jsval)) (rest : list ascii) :
  delim (flat_map (fun y => ","%char :: list_ascii_of_string (member_text y)) ms
         ++ "}"%char :: rest)%list = true.
Proof. destruct ms; reflexivity. Qed.

Lemma json_roundtrip_fuel (F : nat) :
  (forall v rest, json_doc v = true -> delim rest = true ->
     (length (list_ascii_of_string (elem_text v)) < F)%nat ->
     parse_value F (list_ascii_of_string (elem_text v) ++ rest)%list = Some (v, rest)) /\
  (forall es acc rest, forallb json_doc es = true -> delim rest = true ->
     (length (flat_map (fun y => ","%char :: list_ascii_of_string (elem_text y)) es) < F)%nat ->
     parse_elems F (flat_map (fun y => ","%char :: list_ascii_of_string (elem_text y)) es
                    ++ "]"%char :: rest)%list acc
     = Some (JArr (acc ++ es)%list, rest)) /\
  (forall m ms acc rest, forallb (fun kv => json_doc (snd kv)) (m :: ms) = true ->
     keys_distinct (map fst (acc ++ m :: ms)%list) = true -> delim rest = true ->
     (length (list_ascii_of_string (member_text m)
              ++ flat_map (fun y => ","%char :: list_ascii_of_string (member_text y)) ms)
      < F)%nat ->
     parse_members F (list_ascii_of_string (member_text m)
                      ++ flat_map (fun y => ","%char :: list_ascii_of_string (member_text y)) ms
                      ++ "}"%char :: rest)%list acc
     = Some (JObj (acc ++ m :: ms)%list, rest)).
Proof.
  induction F as [|f [IHP [IHE IHM]]].
  { split; [|split]; intros; lia. }
  split; [|split].
  - (* a value *)
    intros v rest Hv Hr Hlen. destruct v as [| |b|z|s|l|fs]; try discriminate.
    + reflexivity.
    + destruct b; reflexivity.
    + pose proof (parse_number_dec z rest Hr) as Hpn.
      destruct (Z_to_dec_spec z) as [D [HL [HD [_ Hz]]]].
      change (elem_text (JNum z)) with (Z_to_dec z). rewrite HL in *.
      destruct (Z.ltb z 0).
      * cbn [List.app] in *. exact Hpn.
      * destruct D as [|c D]; [contradiction|].
        simpl in HD. apply andb_prop in HD as [Hc _]. cbn [List.app] in *.
        simpl. rewrite (digit_not_ws c Hc). simpl.
        rewrite !(digit_neq c _ Hc) by reflexivity. simpl. rewrite Hc.
        exact Hpn.
    + change (elem_text (JStr s)) with (quote s).
      rewrite list_ascii_quote. cbn [List.app]. rewrite <- app_assoc. simpl.
      now rewrite parse_str_escape.
    + destruct l as [|e es]; [reflexivity|].
      simpl in Hv. apply andb_prop in Hv as [He Hes].
      destruct (elem_text_head e He) as [c [r [HLe [Hws [Hb _]]]]].
      rewrite arr_text in *. simpl in Hlen. rewrite !length_app in Hlen.
      pose proof (IHP e _ He (delim_elems es rest)) as Hpe.
      pose proof (IHE es [e] rest Hes Hr) as Hpt.
      rewrite HLe in Hpe, Hlen |- *. simpl in Hlen.
      cbn [List.app]. rewrite <- !app_assoc. simpl. rewrite Hws, Hb.
      cbn [List.app] in Hpe. rewrite Hpe by (simpl; lia).
      apply Hpt. lia.
    + destruct fs as [|[k x] ms]; [reflexivity|].
      cbn [json_doc] in Hv. apply andb_prop in Hv as [Hk Hall].
      pose proof (IHM (k, x) ms [] rest Hall Hk Hr) as Hpm.
      rewrite obj_text in Hlen |- * by exact Hall.
      cbn [length] in Hlen. rewrite !length_app in Hlen. cbn [length] in Hlen.
      specialize (Hpm ltac:(rewrite length_app; lia)).
      rewrite member_text_list in Hpm |- *.
      cbn [List.app] in Hpm |- *. rewrite <- !app_assoc in Hpm |- *. simpl in Hpm |- *.
      rewrite <- !app_assoc. cbn [List.app]. exact Hpm.
  - (* the elements after the first *)
    intros es acc rest Hes Hr Hlen. destruct es as [|e es].
    + simpl. now rewrite app_nil_r.
    + cbn [flat_map] in Hlen |- *. cbn [forallb] in Hes.
      apply andb_prop in Hes as [He Hes].
      rewrite length_app in Hlen. cbn [length] in Hlen.
      cbn [List.app]. rewrite <- app_assoc. simpl.
      rewrite (IHP e _ He (delim_elems es rest)) by lia.
      rewrite IHE by (assumption || lia). now rewrite <- app_assoc.
  - (* the members *)
    intros [k x] ms acc rest Hall Hkeys Hr Hlen.
    assert (Hfresh : existsb (String.eqb k) (map fst acc) = false).
    { pose proof Hkeys as Hk2. rewrite map_app in Hk2.
      exact (keys_distinct_fresh _ _ _ Hk2). }
    cbn [forallb] in Hall. apply andb_prop in Hall as [Hx Hms]. cbn [snd] in Hx.
    rewrite length_app, member_text_list in Hlen. cbn [length] in Hlen.
    rewrite length_app in Hlen. cbn [length] in Hlen.
    rewrite member_text_list. cbn [List.app]. rewrite <- app_assoc. cbn [List.app].
    cbn [parse_members]. rewrite skip_ws_head by reflexivity. rewrite Ascii.eqb_refl.
    rewrite parse_str_escape. cbn beta iota.
    rewrite skip_ws_head by reflexivity. rewrite Ascii.eqb_refl.
    rewrite (IHP x _ Hx (delim_members ms rest)) by lia.
    rewrite assoc_set_fresh by exact Hfresh.
    destruct ms as [|[k' x'] ms'].
    + reflexivity.
    + cbn [flat_map List.app]. rewrite skip_ws_head by reflexivity.
      rewrite Ascii.eqb_refl. rewrite <- app_assoc.
      replace (acc ++ (k, x) :: (k', x') :: ms')%list
        with ((acc ++ [(k, x)]) ++ (k', x') :: ms')%list by (now rewrite <- app_assoc).
      apply IHM.
      * exact Hms.
      * rewrite <- app_assoc. exact Hkeys.
      * exact Hr.
      * rewrite length_app. cbn [flat_map] in Hlen. rewrite length_app in Hlen.
        cbn [length] in Hlen. lia.
Qed.

Lemma json_parse_elem_text (v : jsval) :
  json_doc v = true -> json_parse (elem_text v) = Some v.
Proof.
  intros Hv. unfold json_parse.
  pose proof (proj1 (json_roundtrip_fuel (S (length (list_ascii_of_string (elem_text v)))))
                v [] Hv eq_refl ltac:(lia)) as H.
  rewrite app_nil_r in H. now rewrite H.
Qed.

(** [all()] reads back the last row of each key *)

Lemma parse_rows_fold_last (t : list row) (k : string) :
  forall acc m,
  fold_left (fun (acc : option (gmap string jsval)) r =>
    match acc with
    | None => None
    | Some m =>
        match json_parse (match row_value r with Some s => s | None => "null" end) with
        | Some v => Some (<[row_key r := v]> m)
        | None => None
        end
    end) t (Some acc) = Some m ->
  m !! k = match last (select_by_key t k) with
           | Some r => json_parse (match row_value r with Some s => s | None => "null" end)
           | None => acc !! k
           end.
Proof.
  induction t as [|x t IH] using rev_ind; intros acc m H.
  - simpl in H. injection H as <-. reflexivity.
  - rewrite fold_left_app in H. simpl in H. rewrite select_by_key_snoc.
    destruct (fold_left _ t (Some acc)) as [m0|] eqn:E; [|discriminate].
    destruct (json_parse (match row_value x with Some s => s | None => "null" end))
      as [w|] eqn:Ew; [|discriminate].
    injection H as <-.
    destruct (String.eqb (row_key x) k) eqn:Ek.
    + apply String.eqb_eq in Ek. subst k. rewrite last_snoc, lookup_insert_eq. now rewrite Ew.
    + apply String.eqb_neq in Ek. rewrite app_nil_r, lookup_insert_ne by exact Ek.
      exact (IH acc m0 E).
Qed.

Lemma parse_rows_last (t : list row) (k : string) (m : gmap string jsval) :
  parse_rows t = Some m ->
  m !! k = match last (select_by_key t k) with
           | Some r => json_parse (match row_value r with Some s => s | None => "null" end)
           | None => None
           end.
Proof. intros H. exact (parse_rows_fold_last t k ∅ m H). Qed.

Lemma last_repeat {A} (x : A) (n : nat) : last (repeat x (S n)) = Some x.
Proof. induction n as [|n IH]; [reflexivity|]. exact IH. Qed.



(** *** [push] on a key without a dot whose value is not an array *)

Lemma list_last_cons {A} (w d : A) (vs : list A) : List.last (w :: vs) d = List.last vs w.
Proof.
  revert w d. induction vs as [|j vs IH]; intros w d; [reflexivity|].
  change (List.last (w :: j :: vs) d) with (List.last (j :: vs) d). now rewrite !IH.
Qed.

Lemma pg_push_loop_cons_scalar (key : string) (x v : jsval) (vs : list jsval) (st : state) :
  truthy x = true -> is_array x = false ->
  PostgresProvider.push_loop key x (v :: vs) st
  = PostgresProvider.push_loop key x vs (snd (PostgresProvider.set key (JArr [x; v]) st)).
Proof. intros Ht Ha. simpl. now rewrite Ht, Ha. Qed.

Lemma sqlite_push_loop_cons_scalar (key : string) (x v : jsval) (vs : list jsval) (st : state) :
  truthy x = true -> is_array x = false ->
  SqliteProvider.push_loop key x (v :: vs) st
  = SqliteProvider.push_loop key x vs (snd (SqliteProvider.set key (JArr [x; v]) st)).
Proof. intros Ht Ha. simpl. now rewrite Ht, Ha. Qed.

Lemma pg_push_loop_cons_falsy (key : string) (x v : jsval) (vs : list jsval) (st : state) :
  truthy x = false ->
  PostgresProvider.push_loop key x (v :: vs) st
  = PostgresProvider.push_loop key x vs (snd (PostgresProvider.set key (JArr [v]) st)).
Proof. intros Ht. simpl. now rewrite Ht. Qed.

Lemma sqlite_push_loop_cons_falsy (key : string) (x v : jsval) (vs : list jsval) (st : state) :
  truthy x = false ->
  SqliteProvider.push_loop key x (v :: vs) st
  = SqliteProvider.push_loop key x vs (snd (SqliteProvider.set key (JArr [v]) st)).
Proof. intros Ht. simpl. now rewrite Ht. Qed.

Lemma pg_push_loop_scalar (key : string) (x : jsval) (vs : list jsval) :
  includes_dot key = false -> truthy x = true -> is_array x = false ->
  forall v st,
  collection (PostgresProvider.push_loop key x (v :: vs) st)
  = <[key := JArr [x; List.last vs v]]> (collection st).
Proof.
  intros Hk Ht Ha. induction vs as [|w vs IH]; intros v st;
    rewrite pg_push_loop_cons_scalar by assumption.
  - cbn [PostgresProvider.push_loop]. now rewrite pg_set_root_coll by exact Hk.
  - rewrite IH, pg_set_root_coll, insert_insert_eq by exact Hk.
    now rewrite list_last_cons.
Qed.

Lemma sqlite_push_loop_scalar (key : string) (x : jsval) (vs : list jsval) :
  includes_dot key = false -> truthy x = true -> is_array x = false ->
  forall v st,
  collection (SqliteProvider.push_loop key x (v :: vs) st)
  = <[key := JArr [x; List.last vs v]]> (collection st).
Proof.
  intros Hk Ht Ha. induction vs as [|w vs IH]; intros v st;
    rewrite sqlite_push_loop_cons_scalar by assumption.
  - cbn [SqliteProvider.push_loop]. now rewrite sqlite_set_root_coll by exact Hk.
  - rewrite IH, sqlite_set_root_coll, insert_insert_eq by exact Hk.
    now rewrite list_last_cons.
Qed.

Lemma pg_push_loop_falsy (key : string) (x : jsval) (vs : list jsval) :
  includes_dot key = false -> truthy x = false ->
  forall v st,
  collection (PostgresProvider.push_loop key x (v :: vs) st)
  = <[key := JArr [List.last vs v]]> (collection st).
Proof.
  intros Hk Ht. induction vs as [|w vs IH]; intros v st;
    rewrite pg_push_loop_cons_falsy by assumption.
  - cbn [PostgresProvider.push_loop]. now rewrite pg_set_root_coll by exact Hk.
  - rewrite IH, pg_set_root_coll, insert_insert_eq by exact Hk.
    now rewrite list_last_cons.
Qed.

Lemma sqlite_push_loop_falsy (key : string) (x : jsval) (vs : list jsval) :
  includes_dot key = false -> truthy x = false ->
  forall v st,
  collection (SqliteProvider.push_loop key x (v :: vs) st)
  = <[key := JArr [List.last vs v]]> (collection st).
Proof.
  intros Hk Ht. induction vs as [|w vs IH]; intros v st;
    rewrite sqlite_push_loop_cons_falsy by assumption.
  - cbn [SqliteProvider.push_loop]. now rewrite sqlite_set_root_coll by exact Hk.
  - rewrite IH, sqlite_set_root_coll, insert_insert_eq by exact Hk.
    now rewrite list_last_cons.
Qed.





(** *** Instances of the properties above on concrete states *)



Lemma pg_set_frame_witness :
  let st := mkState {[ "b" := JNum 2 ]} [mkRow "b" (Some "2")] in
  "b" <> fst (shift_split "a.x") /\
  collection (snd (PostgresProvider.set "a.x" (JNum 1) st)) !! "b" = collection st !! "b" /\
  select_by_key (rows (snd (PostgresProvider.set "a.x" (JNum 1) st))) "b"
  = select_by_key (rows st) "b".
Proof.
  intros st. assert (Hne : "b" <> fst (shift_split "a.x")).
  { intros H. vm_compute in H. discriminate H. }
  split; [exact Hne|]. exact (pg_set_frame "a.x" (JNum 1) st "b" Hne).
Defined.

Lemma sqlite_set_frame_witness :
  let st := mkState {[ "b" := JNum 2 ]} [mkRow "b" (Some "2")] in
  "b" <> fst (shift_split "a.x") /\
  collection (snd (SqliteProvider.set "a.x" (JNum 1) st)) !! "b" = collection st !! "b" /\
  select_by_key (rows (snd (SqliteProvider.set "a.x" (JNum 1) st))) "b"
  = select_by_key (rows st) "b".
Proof.
  intros st. assert (Hne : "b" <> fst (shift_split "a.x")).
  { intros H. vm_compute in H. discriminate H. }
  split; [exact Hne|]. exact (sqlite_set_frame "a.x" (JNum 1) st "b" Hne).
Defined.

Lemma pg_get_miss_root_witness :
  includes_dot "k" = false /\ coll_has (collection empty_state) "k" = false /\
  let dflt := if truthy (JNum 0) then JNum 0 else JStr "" in
  fst (PostgresProvider.get "k" (JNum 0) empty_state) = dflt /\
  collection (snd (PostgresProvider.get "k" (JNum 0) empty_state))
  = <["k" := dflt]> (collection empty_state) /\
  select_by_key (rows (snd (PostgresProvider.get "k" (JNum 0) empty_state))) "k"
  = repeat (mkRow "k" (stringify dflt))
      (Nat.max 1 (length (select_by_key (rows empty_state) "k"))).
Proof.
  split; [reflexivity|]. split; [reflexivity|].
  apply pg_get_miss_root; reflexivity.
Defined.

Lemma sqlite_get_miss_root_witness :
  includes_dot "k" = false /\ coll_has (collection empty_state) "k" = false /\
  let dflt := match JUndef with JUndef => JStr "" | d => d end in
  fst (SqliteProvider.get "k" JUndef empty_state) = dflt /\
  collection (snd (SqliteProvider.get "k" JUndef empty_state))
  = <["k" := dflt]> (collection empty_state) /\
  rows (snd (SqliteProvider.get "k" JUndef empty_state))
  = update_rows (rows empty_state) (stringify dflt) "k".
Proof.
  split; [reflexivity|]. split; [reflexivity|].
  apply sqlite_get_miss_root; reflexivity.
Defined.

Lemma pg_delete_then_has_witness :
  let st := mkState {[ "k" := JNum 1 ]} [mkRow "k" (Some "1"); mkRow "j" (Some "2")] in
  includes_dot "k" = false /\
  PostgresProvider.has "k" (PostgresProvider.delete "k" st)
  = (false, PostgresProvider.delete "k" st) /\
  forall m, fst (PostgresProvider.all (PostgresProvider.delete "k" st)) = Some m ->
  m !! "k" = None.
Proof. intros st. split; [reflexivity|]. apply pg_delete_then_has. reflexivity. Defined.

Lemma sqlite_delete_then_has_witness :
  let st := mkState {[ "k" := JNum 1 ]} [mkRow "k" (Some "1"); mkRow "j" (Some "2")] in
  includes_dot "k" = false /\
  SqliteProvider.has "k" (SqliteProvider.delete "k" st)
  = (false, SqliteProvider.delete "k" st) /\
  forall m, fst (SqliteProvider.all (SqliteProvider.delete "k" st)) = Some m ->
  m !! "k" = None.
Proof. intros st. split; [reflexivity|]. apply sqlite_delete_then_has. reflexivity. Defined.

Lemma pg_set_then_has_root_witness :
  includes_dot "k" = false /\
  PostgresProvider.has "k" (snd (PostgresProvider.set "k" JUndef empty_state))
  = (true, snd (PostgresProvider.set "k" JUndef empty_state)).
Proof. split; [reflexivity|]. apply pg_set_then_has_root. reflexivity. Defined.

Lemma sqlite_set_then_has_root_witness :
  includes_dot "k" = false /\
  SqliteProvider.has "k" (snd (SqliteProvider.set "k" JUndef empty_state))
  = (true, snd (SqliteProvider.set "k" JUndef empty_state)).
Proof. split; [reflexivity|]. apply sqlite_set_then_has_root. reflexivity. Defined.

Lemma pg_set_then_has_nested_witness :
  includes_dot "a" = false /\ includes_dot "b" = false /\ unsafe_key "b" = false /\
  extendable_doc (coll_get (collection empty_state) "a") = true /\
  PostgresProvider.has (nested_key "a" "b")
    (snd (PostgresProvider.set (nested_key "a" "b") JUndef empty_state))
  = (true, snd (PostgresProvider.set (nested_key "a" "b") JUndef empty_state)).
Proof.
  refine (conj eq_refl (conj eq_refl (conj eq_refl (conj eq_refl _)))).
  apply pg_set_then_has_nested; reflexivity.
Defined.

Lemma pg_has_absent_root_witness :
  includes_dot "a" = false /\ includes_dot "length" = false /\ has_bracket "length" = false /\
  coll_has (collection empty_state) "a" = false /\
  PostgresProvider.has (nested_key "a" "length") empty_state
  = (String.eqb "length" "length", snd (PostgresProvider.set "a" (JStr "") empty_state)).
Proof.
  refine (conj eq_refl (conj eq_refl (conj eq_refl (conj eq_refl _)))).
  apply pg_has_absent_root; reflexivity.
Defined.

Lemma sqlite_has_absent_root_witness :
  includes_dot "a" = false /\ includes_dot "length" = false /\ has_bracket "length" = false /\
  coll_has (collection empty_state) "a" = false /\
  SqliteProvider.has (nested_key "a" "length") empty_state
  = (String.eqb "length" "length", snd (SqliteProvider.set "a" (JStr "") empty_state)).
Proof.
  refine (conj eq_refl (conj eq_refl (conj eq_refl (conj eq_refl _)))).
  apply sqlite_has_absent_root; reflexivity.
Defined.



Lemma pg_all_fails_witness :
  let st := mkState ∅ [mkRow "j" (Some "2"); mkRow "k" (Some "oops")] in
  In (mkRow "k" (Some "oops")) (rows st) /\ not_json_text "oops" = true /\
  PostgresProvider.all st = (None, st).
Proof.
  intros st. assert (Hin : In (mkRow "k" (Some "oops")) (rows st)) by (right; left; reflexivity).
  split; [exact Hin|]. split; [reflexivity|]. exact (pg_all_fails st "k" "oops" Hin eq_refl).
Defined.

Lemma sqlite_all_fails_witness :
  let st := mkState ∅ [mkRow "j" (Some "2"); mkRow "k" (Some "oops")] in
  In (mkRow "k" (Some "oops")) (rows st) /\ not_json_text "oops" = true /\
  SqliteProvider.all st = (None, st).
Proof.
  intros st. assert (Hin : In (mkRow "k" (Some "oops")) (rows st)) by (right; left; reflexivity).
  split; [exact Hin|]. split; [reflexivity|]. exact (sqlite_all_fails st "k" "oops" Hin eq_refl).
Defined.






